(** * JWKS provider and caching provider (package jwks, provider.go)

    A shallow embedding of [Provider.KeyFunc], [NewCachingProvider],
    [CachingProvider.KeyFunc] and [CachingProvider.refreshKey].

    The methods are written once, as programs over the atomic operations
    they perform on the receiver and on the outside world (lock and
    semaphore calls, map reads and writes, the clock, the two network
    calls, the [go] statement).  Two semantics run these programs: [run]
    executes one call to completion, [step] interleaves several calls. *)

From Stdlib Require Import ZArith String List Lia.
From stdpp Require Import gmap strings.

Local Open Scope string_scope.
Local Open Scope list_scope.
Local Open Scope Z_scope.

(** ** Values of the packages the provider imports *)

(** A Go [error]: either an error made by a collaborator, or one built by
    [fmt.Errorf("<context>: %w", cause)]. *)
Inductive error : Type :=
| errors_New (msg : string)
| fmt_Errorf (context : string) (cause : error).

(** [url.URL] *)
Record url_URL := { Scheme : string; Host : string; Path : string }.

(** [http.Client]; [&http.Client{}] is the zero value. *)
Record http_Client := { Transport : string; Timeout : Z }.

Definition http_Client_zero : http_Client := {| Transport := ""; Timeout := 0 |}.

(** [context.Context]: the background context, a context derived from a
    parent with a timeout, or some context handed in by a caller. *)
Inductive Context : Type :=
| context_Background
| context_WithTimeout (parent : Context) (timeout : Z)
| context_Of (request : string).

(** [time.Duration] values, in nanoseconds. *)
Definition time_Second : Z := 1000000000.
Definition time_Minute : Z := 60 * time_Second.

Definition http_MethodGet : string := "GET".

(** [http.Request], as far as [http.NewRequestWithContext] fills it. *)
Record http_Request := { req_ctx : Context; Method : string; req_url : string }.

(** [http.Response]: the status line and the body. *)
Record http_Response := { StatusCode : Z; Body : string }.

(** [oidc.WellKnownEndpoints] *)
Record oidc_WellKnownEndpoints := { JWKSURI : string }.

(** [jose.JSONWebKey] and [jose.JSONWebKeySet] *)
Record jose_JSONWebKey :=
  { KeyID : string; Algorithm : string; Use : string; Key : string }.

Record jose_JSONWebKeySet := { Keys : list jose_JSONWebKey }.

(** The pair [(interface{}, error)] both [KeyFunc]s return: [None] is
    [nil]. *)
Definition Result : Type := option jose_JSONWebKeySet * option error.

(** ** [semaphore.Weighted] (no goroutine of this package ever waits on
    it, so the waiter queue stays empty) *)

Record Weighted := { sem_size : Z; sem_cur : Z }.

Definition semaphore_NewWeighted (n : Z) : Weighted :=
  {| sem_size := n; sem_cur := 0 |}.

Definition Weighted_TryAcquire (s : Weighted) (n : Z) : bool * Weighted :=
  if n <=? sem_size s - sem_cur s
  then (true, {| sem_size := sem_size s; sem_cur := sem_cur s + n |})
  else (false, s).

(** [Release] panics when more is released than is held. *)
Definition Weighted_Release (s : Weighted) (n : Z) : option Weighted :=
  if sem_cur s - n <? 0 then None
  else Some {| sem_size := sem_size s; sem_cur := sem_cur s - n |}.

(** ** [sync.RWMutex]: one writer or any number of readers *)

Record RWMutex := { writer : bool; readers : nat }.

Definition RWMutex_zero : RWMutex := {| writer := false; readers := 0 |}.

(** ** The provider structs *)

Record Provider := {
  IssuerURL : url_URL;               (* Required. *)
  CustomJWKSURI : option url_URL;    (* Optional. *)
  Client : http_Client
}.

Record cachedJWKS := {
  jwks : jose_JSONWebKeySet;
  expiresAt : Z                      (* time.Time, in nanoseconds *)
}.

Record CachingProvider := {
  Provider_ : Provider;              (* the embedded *Provider *)
  CacheTTL : Z;
  mu : RWMutex;
  cache : gmap string cachedJWKS;
  sem : Weighted;
  synchronousRefresh : bool
}.

(** The types [ProviderOption] and [CachingProviderOption]: functions
    that update the struct they are handed a pointer to. *)
Definition ProviderOption : Type := Provider -> Provider.
Definition CachingProviderOption : Type := CachingProvider -> CachingProvider.

(** An element of [opts ...interface{}] with its dynamic type: one of
    the two option types, or a value of some other type (named as [%T]
    prints it). *)
Inductive opt_value : Type :=
| opt_ProviderOption (o : ProviderOption)
| opt_CachingProviderOption (o : CachingProviderOption)
| opt_other (type_name : string).

(** The closure started by the [go] statement of [KeyFunc]: it captures
    the receiver and [issuer]. *)
Inductive Goroutine : Type :=
| go_refresh (issuer : string).

(** What an observer sees of a run: entries into [Provider.KeyFunc] and
    the two outbound calls, each with what it returned. *)
Inductive Event : Type :=
| EvKeyFunc (ctx : Context)
| EvDiscovery (ctx : Context) (client : http_Client) (issuer : url_URL)
    (returned : error + oidc_WellKnownEndpoints)
| EvDo (client : http_Client) (request : http_Request)
    (returned : error + http_Response).

(** ** Programs *)

(** The atomic operations, indexed by the type of what they return. *)
Inductive Op : Type -> Type :=
(* reading a field of the receiver *)
| Load {X : Type} (field : CachingProvider -> X) : Op X
(* c.mu *)
| RLock : Op unit
| RUnlock : Op unit
| Lock : Op unit
| Unlock : Op unit
(* c.cache[issuer] = entry;  delete(c.cache, issuer) *)
| MapStore (issuer : string) (entry : cachedJWKS) : Op unit
| MapDelete (issuer : string) : Op unit
(* c.sem *)
| TryAcquire (n : Z) : Op bool
| Release (n : Z) : Op unit
(* time.Now() *)
| Now : Op Z
(* oidc.GetWellKnownEndpointsFromIssuerURL(ctx, client, issuerURL) *)
| GetWellKnownEndpointsFromIssuerURL
    (ctx : Context) (client : http_Client) (issuerURL : url_URL)
  : Op (error + oidc_WellKnownEndpoints)
(* client.Do(request) *)
| Do (client : http_Client) (request : http_Request)
  : Op (error + http_Response)
(* go func() { ... }() *)
| Go (g : Goroutine) : Op unit
(* panic(msg), also a failed type assertion *)
| Throw (msg : string) : Op Empty_set
(* entry into Provider.KeyFunc, recorded for the observer only *)
| Enter (ctx : Context) : Op unit.

Inductive Prog (A : Type) : Type :=
| Ret (a : A)
| Act {X : Type} (op : Op X) (k : X -> Prog A).

Arguments Ret {A} a.
Arguments Act {A X} op k.

Fixpoint bind {A B : Type} (p : Prog A) (f : A -> Prog B) : Prog B :=
  match p with
  | Ret a => f a
  | Act op k => Act op (fun x => bind (k x) f)
  end.

Definition call {X : Type} (op : Op X) : Prog X := Act op Ret.

Definition panic {A : Type} (msg : string) : Prog A :=
  Act (Throw msg) (fun x : Empty_set => match x with end).

Declare Scope prog_scope.
Delimit Scope prog_scope with prog.
Bind Scope prog_scope with Prog.

Notation "x <- p ; q" := (bind p (fun x => q))
  (at level 100, p at next level, right associativity) : prog_scope.
Notation "p ;; q" := (bind p (fun _ => q))
  (at level 100, right associativity) : prog_scope.

Local Open Scope prog_scope.

(** ** What the provider takes from the standard library: pure
    functions of [net/url], [net/http] and [encoding/json]. *)
Class Libs := {
  url_Parse : string -> error + url_URL;
  URL_String : url_URL -> string;
  URL_Hostname : url_URL -> string;
  http_NewRequestWithContext : Context -> string -> string -> error + http_Request;
  (* json.NewDecoder(body).Decode(&jwks) *)
  json_Decode : string -> error + jose_JSONWebKeySet
}.

Section Programs.

Context `{Libs}.

(** [func (p *Provider) KeyFunc(ctx context.Context) (interface{}, error)] *)
Definition Provider_KeyFunc (p : Provider) (ctx : Context) : Prog Result :=
  call (Enter ctx) ;;
  resolved <-
    match CustomJWKSURI p with
    | Some jwksURI => Ret (inr jwksURI)
    | None =>
        wk <- call (GetWellKnownEndpointsFromIssuerURL ctx (Client p) (IssuerURL p)) ;
        match wk with
        | inl err => Ret (inl err)
        | inr wkEndpoints =>
            match url_Parse (JWKSURI wkEndpoints) with
            | inl err =>
                Ret (inl (fmt_Errorf
                  "could not parse JWKS URI from well known endpoints" err))
            | inr jwksURI => Ret (inr jwksURI)
            end
        end
    end ;
  match resolved with
  | inl err => Ret (None, Some err)
  | inr jwksURI =>
      match http_NewRequestWithContext ctx http_MethodGet (URL_String jwksURI) with
      | inl err =>
          Ret (None, Some (fmt_Errorf "could not build request to get JWKS" err))
      | inr request =>
          response <- call (Do (Client p) request) ;
          match response with
          | inl err => Ret (None, Some err)
          | inr response =>
              match json_Decode (Body response) with
              | inl err => Ret (None, Some (fmt_Errorf "could not decode jwks" err))
              | inr jwks => Ret (Some jwks, None)
              end
          end
      end
  end.

(** [func (c *CachingProvider) refreshKey(ctx, issuer)]; the deferred
    [c.mu.Unlock()] is written out before each return. *)
Definition refreshKey (ctx : Context) (issuer : string) : Prog Result :=
  call Lock ;;
  p <- call (Load Provider_) ;
  fetched <- Provider_KeyFunc p ctx ;
  match fetched with
  | (_, Some err) => call Unlock ;; Ret (None, Some err)
  | (None, None) =>
      (* jwks.( *jose.JSONWebKeySet) on a nil interface *)
      panic "interface conversion: interface is nil, not *jose.JSONWebKeySet"
  | (Some keys, None) =>
      now <- call Now ;
      ttl <- call (Load CacheTTL) ;
      call (MapStore issuer {| jwks := keys; expiresAt := now + ttl |}) ;;
      call Unlock ;;
      Ret (Some keys, None)
  end.

(** The body of the goroutine that [KeyFunc] starts; the deferred
    [cancel()] has no effect on the receiver, the deferred
    [c.sem.Release(1)] runs last. *)
Definition goroutine_body (g : Goroutine) : Prog unit :=
  match g with
  | go_refresh issuer =>
      let refreshCtx := context_WithTimeout context_Background (15 * time_Second) in
      refreshed <- refreshKey refreshCtx issuer ;
      match snd refreshed with
      | Some _ => call Lock ;; call (MapDelete issuer) ;; call Unlock
      | None => Ret tt
      end ;;
      call (Release 1)
  end.

(** [func (c *CachingProvider) KeyFunc(ctx context.Context) (interface{}, error)] *)
Definition CachingProvider_KeyFunc (ctx : Context) : Prog Result :=
  call RLock ;;
  issuerURL <- call (Load (fun c => IssuerURL (Provider_ c))) ;
  let issuer := URL_Hostname issuerURL in
  lookup <- call (Load (fun c => cache c !! issuer)) ;
  match lookup with
  | Some cached =>
      now <- call Now ;
      (* time.Now().After(cached.expiresAt) && c.sem.TryAcquire(1) *)
      refresh <- (if now >? expiresAt cached then call (TryAcquire 1) else Ret false) ;
      if refresh then
        synchronous <- call (Load synchronousRefresh) ;
        if negb synchronous then
          call (Go (go_refresh issuer)) ;;
          call RUnlock ;;
          Ret (Some (jwks cached), None)
        else
          call RUnlock ;;
          refreshed <- refreshKey ctx issuer ;
          call (Release 1) ;;           (* deferred *)
          Ret refreshed
      else
        call RUnlock ;;
        Ret (Some (jwks cached), None)
  | None =>
      call RUnlock ;;
      refreshKey ctx issuer
  end.

End Programs.

Arguments Provider_KeyFunc : simpl never.
Arguments refreshKey : simpl never.

(** ** Constructors and options *)

(** [func NewProvider(issuerURL *url.URL, opts ...ProviderOption) *Provider] *)
Definition NewProvider (issuerURL : url_URL) (opts : list ProviderOption) : Provider :=
  fold_left (fun p opt => opt p) opts
    {| IssuerURL := issuerURL; CustomJWKSURI := None; Client := http_Client_zero |}.

Definition WithCustomJWKSURI (jwksURI : option url_URL) : ProviderOption :=
  fun p => {| IssuerURL := IssuerURL p; CustomJWKSURI := jwksURI; Client := Client p |}.

Definition WithCustomClient (c : http_Client) : ProviderOption :=
  fun p => {| IssuerURL := IssuerURL p; CustomJWKSURI := CustomJWKSURI p; Client := c |}.

Definition WithSynchronousRefresh (blocking : bool) : CachingProviderOption :=
  fun cp =>
    {| Provider_ := Provider_ cp; CacheTTL := CacheTTL cp; mu := mu cp;
       cache := cache cp; sem := sem cp; synchronousRefresh := blocking |}.

(** The type switch over [opts]: the two lists it builds, or the message
    of the panic at the first value of another type. *)
Fixpoint sort_opts (opts : list opt_value)
    (providerOpts : list ProviderOption) (cachingOpts : list CachingProviderOption)
  : string + (list ProviderOption * list CachingProviderOption) :=
  match opts with
  | [] => inr (providerOpts, cachingOpts)
  | opt_ProviderOption o :: rest => sort_opts rest (providerOpts ++ [o]) cachingOpts
  | opt_CachingProviderOption o :: rest => sort_opts rest providerOpts (cachingOpts ++ [o])
  | opt_other type_name :: _ => inl ("invalid option type: " +:+ type_name)
  end.

(** [func NewCachingProvider(issuerURL, cacheTTL, opts ...interface{})]:
    [inl msg] is [panic(msg)]. *)
Definition NewCachingProvider (issuerURL : url_URL) (cacheTTL : Z)
    (opts : list opt_value) : string + CachingProvider :=
  let cacheTTL := if cacheTTL =? 0 then 1 * time_Minute else cacheTTL in
  match sort_opts opts [] [] with
  | inl msg => inl msg
  | inr (providerOpts, cachingOpts) =>
      let cp := {| Provider_ := NewProvider issuerURL providerOpts;
                   CacheTTL := cacheTTL;
                   mu := RWMutex_zero;
                   cache := ∅;
                   sem := semaphore_NewWeighted 1;
                   synchronousRefresh := false |} in
      inr (fold_left (fun cp opt => opt cp) cachingOpts cp)
  end.

(** ** The outside world: the clock and the two network collaborators.
    A call returns what the caller sees and the world after the call. *)
Class World (W : Type) := {
  time_Now : W -> Z;
  (* internal/oidc: resolves the issuer to its well-known endpoints *)
  oidc_GetWellKnownEndpointsFromIssuerURL :
    Context -> http_Client -> url_URL -> W -> (error + oidc_WellKnownEndpoints) * W;
  Client_Do : http_Client -> http_Request -> W -> (error + http_Response) * W
}.

(** ** Running programs *)

Section Semantics.

Context {W : Type} `{World W}.

(** The state a program runs on: the world, the receiver, the
    goroutines started and not yet scheduled, and the events so far
    (oldest first). *)
Record St := {
  world : W;
  self : CachingProvider;
  goroutines : list Goroutine;
  trace : list Event
}.

Definition with_world (w : W) (s : St) : St :=
  {| world := w; self := self s; goroutines := goroutines s; trace := trace s |}.
Definition with_self (c : CachingProvider) (s : St) : St :=
  {| world := world s; self := c; goroutines := goroutines s; trace := trace s |}.
Definition with_goroutines (gs : list Goroutine) (s : St) : St :=
  {| world := world s; self := self s; goroutines := gs; trace := trace s |}.
Definition record (e : Event) (s : St) : St :=
  {| world := world s; self := self s; goroutines := goroutines s;
     trace := trace s ++ [e] |}.

Definition set_mu (m : RWMutex) (c : CachingProvider) : CachingProvider :=
  {| Provider_ := Provider_ c; CacheTTL := CacheTTL c; mu := m;
     cache := cache c; sem := sem c; synchronousRefresh := synchronousRefresh c |}.
Definition set_cache (m : gmap string cachedJWKS) (c : CachingProvider) : CachingProvider :=
  {| Provider_ := Provider_ c; CacheTTL := CacheTTL c; mu := mu c;
     cache := m; sem := sem c; synchronousRefresh := synchronousRefresh c |}.
Definition set_sem (w : Weighted) (c : CachingProvider) : CachingProvider :=
  {| Provider_ := Provider_ c; CacheTTL := CacheTTL c; mu := mu c;
     cache := cache c; sem := w; synchronousRefresh := synchronousRefresh c |}.

(** The result of an operation or of a run: a value and the state
    after it, a lock that is not free (the caller waits), or a panic. *)
Inductive Outcome (A : Type) : Type :=
| Done (a : A) (s : St)
| Blocked
| Panicked (msg : string).

Arguments Done {A} a s.
Arguments Blocked {A}.
Arguments Panicked {A} msg.

Definition exec {X : Type} (op : Op X) (s : St) : Outcome X :=
  let c := self s in
  match op in Op X return Outcome X with
  | Load field => Done (field c) s
  | RLock =>
      if writer (mu c) then Blocked
      else Done tt (with_self (set_mu {| writer := false; readers := S (readers (mu c)) |} c) s)
  | RUnlock =>
      match readers (mu c) with
      | O => Panicked "sync: RUnlock of unlocked RWMutex"
      | S n => Done tt (with_self (set_mu {| writer := writer (mu c); readers := n |} c) s)
      end
  | Lock =>
      if writer (mu c) then Blocked
      else match readers (mu c) with
           | O => Done tt (with_self (set_mu {| writer := true; readers := O |} c) s)
           | S _ => Blocked
           end
  | Unlock =>
      if writer (mu c)
      then Done tt (with_self (set_mu {| writer := false; readers := readers (mu c) |} c) s)
      else Panicked "sync: Unlock of unlocked RWMutex"
  | MapStore issuer entry =>
      Done tt (with_self (set_cache (<[issuer := entry]> (cache c)) c) s)
  | MapDelete issuer =>
      Done tt (with_self (set_cache (delete issuer (cache c)) c) s)
  | TryAcquire n =>
      let '(ok, w) := Weighted_TryAcquire (sem c) n in
      Done ok (with_self (set_sem w c) s)
  | Release n =>
      match Weighted_Release (sem c) n with
      | Some w => Done tt (with_self (set_sem w c) s)
      | None => Panicked "semaphore: released more than held"
      end
  | Now => Done (time_Now (world s)) s
  | GetWellKnownEndpointsFromIssuerURL ctx client issuerURL =>
      let '(r, w) := oidc_GetWellKnownEndpointsFromIssuerURL ctx client issuerURL (world s) in
      Done r (with_world w (record (EvDiscovery ctx client issuerURL r) s))
  | Do client request =>
      let '(r, w) := Client_Do client request (world s) in
      Done r (with_world w (record (EvDo client request r) s))
  | Go g => Done tt (with_goroutines (goroutines s ++ [g]) s)
  | Throw msg => Panicked msg
  | Enter ctx => Done tt (record (EvKeyFunc ctx) s)
  end.

(** One call, run to completion with nothing else scheduled. *)
Fixpoint run {A : Type} (p : Prog A) (s : St) : Outcome A :=
  match p with
  | Ret a => Done a s
  | Act op k =>
      match exec op s with
      | Done x s' => run (k x) s'
      | Blocked => Blocked
      | Panicked msg => Panicked msg
      end
  end.

(** What a finished run returned, and the state it left. *)
Definition returned {A : Type} (o : Outcome A) : option A :=
  match o with Done a _ => Some a | _ => None end.

Definition final {A : Type} (o : Outcome A) : option St :=
  match o with Done _ s => Some s | _ => None end.

(** The state once [c.mu.Lock()] has succeeded on a free mutex, and
    once [c.sem.TryAcquire(1)] has been tried. *)
Definition write_locked (s : St) : St :=
  with_self (set_mu {| writer := true; readers := O |} (self s)) s.

Definition gate_tried (s : St) : St :=
  with_self (set_sem (snd (Weighted_TryAcquire (sem (self s)) 1)) (self s)) s.

End Semantics.

Arguments St W : clear implicits.
Arguments Outcome W A : clear implicits.
Arguments Done {W A} a s.
Arguments Blocked {W A}.
Arguments Panicked {W A} msg.

(** The cache key of a provider: [c.IssuerURL.Hostname()]. *)
Definition issuer_of `{Libs} (c : CachingProvider) : string :=
  URL_Hostname (IssuerURL (Provider_ c)).

(** An option that leaves the cache and the semaphore alone, as every
    option does that only sets configuration. *)
Definition configures_only (o : CachingProviderOption) : Prop :=
  forall cp, cache (o cp) = cache cp /\ sem (o cp) = sem cp.

(** ** Interleaved calls *)

Section Interleaving.

Context {W : Type} `{World W} `{Libs}.

(** A thread is what is left to run of a call to
    [CachingProvider.KeyFunc], or of a goroutine started by one. *)
Inductive Thread : Type :=
| Caller (p : Prog Result)
| Spawned (p : Prog unit).

Record Config := { threads : list Thread; shared : St W }.

(** One operation of a thread; no step when the thread has returned,
    waits for a lock, or panics. *)
Definition step_thread (t : Thread) (s : St W) : option (Thread * St W) :=
  match t with
  | Caller (Act op k) =>
      match exec op s with Done x s' => Some (Caller (k x), s') | _ => None end
  | Spawned (Act op k) =>
      match exec op s with Done x s' => Some (Spawned (k x), s') | _ => None end
  | _ => None
  end.

(** The scheduler picks thread [i]; goroutines it starts join the pool. *)
Definition step (i : nat) (c : Config) : option Config :=
  match threads c !! i with
  | None => None
  | Some t =>
      match step_thread t (shared c) with
      | None => None
      | Some (t', s') =>
          Some {| threads := <[i := t']> (threads c)
                             ++ map (fun g => Spawned (goroutine_body g)) (goroutines s');
                  shared := with_goroutines [] s' |}
      end
  end.

Fixpoint steps (schedule : list nat) (c : Config) : option Config :=
  match schedule with
  | [] => Some c
  | i :: rest =>
      match step i c with
      | Some c' => steps rest c'
      | None => None
      end
  end.

(** Calls to [KeyFunc], one per context, none of which has started. *)
Definition calls (ctxs : list Context) (s : St W) : Config :=
  {| threads := map (fun ctx => Caller (CachingProvider_KeyFunc ctx)) ctxs;
     shared := s |}.

(** A thread with an outbound call pending. *)
Definition outbound {X : Type} (op : Op X) : bool :=
  match op with
  | GetWellKnownEndpointsFromIssuerURL _ _ _ | Do _ _ => true
  | _ => false
  end.

Definition fetching (t : Thread) : bool :=
  match t with
  | Caller (Act op _) | Spawned (Act op _) => outbound op
  | _ => false
  end.

(** *** The locking discipline

    A thread is followed with two flags: whether it holds the write
    lock of [c.mu], and whether it holds the permit of [c.sem].
    [op_next op l g] is [None] when the discipline forbids [op] under
    the flags [l], [g]; otherwise it gives the flags after [op], which
    for [TryAcquire] depend on its answer.  The [go] statement hands
    the permit to the goroutine.  The cache is written, and the
    network called, under the write lock only. *)
Definition op_next {X : Type} (op : Op X) (l g : bool) : option (X -> bool * bool) :=
  match op in Op X return option (X -> bool * bool) with
  | Lock => if l then None else Some (fun _ => (true, g))
  | Unlock => if l then Some (fun _ => (false, g)) else None
  | TryAcquire n =>
      if g then None else if n =? 1 then Some (fun ok => (l, ok)) else None
  | Release n => if g && (n =? 1) then Some (fun _ => (l, false)) else None
  | Go _ => if g then Some (fun _ => (l, false)) else None
  | Enter _ | GetWellKnownEndpointsFromIssuerURL _ _ _ | Do _ _
  | MapStore _ _ | MapDelete _ =>
      if l then Some (fun _ => (l, g)) else None
  | Load _ | RLock | RUnlock | Now => Some (fun _ => (l, g))
  | Throw _ => None
  end.

(** [follows Q l g p]: started with the flags [l], [g], the program [p]
    keeps to the discipline whatever its operations answer, and
    returns values and flags that satisfy [Q]. *)
Fixpoint follows {A : Type} (Q : A -> bool -> bool -> Prop) (l g : bool)
    (p : Prog A) : Prop :=
  match p with
  | Ret a => Q a l g
  | Act op k =>
      match op_next op l g with
      | None => False
      | Some next => forall x, follows Q (fst (next x)) (snd (next x)) (k x)
      end
  end.

(** A thread must have given back what it holds when it returns. *)
Definition thread_follows (l g : bool) (t : Thread) : Prop :=
  match t with
  | Caller p => follows (fun _ l' g' => l' = false /\ g' = false) l g p
  | Spawned p => follows (fun _ l' g' => l' = false /\ g' = false) l g p
  end.

Definition holds_write_lock (t : Thread) : Prop := exists g, thread_follows true g t.

Definition holds_permit (t : Thread) : Prop := exists l, thread_follows l true t.

(** The number of threads whose flag [which] is set. *)
Fixpoint holders (which : bool * bool -> bool) (flags : list (bool * bool)) : nat :=
  match flags with
  | [] => 0
  | f :: rest => Nat.b2n (which f) + holders which rest
  end.

(** A configuration is consistent when its threads can be given flags
    under which each follows the discipline, the write lock is taken
    exactly when some thread holds it, the permits given out by the
    one-permit semaphore are the permits held, and every goroutine
    started is in the pool. *)
Definition consistent (c : Config) : Prop :=
  exists flags : list (bool * bool),
    Forall2 (fun f t => thread_follows (fst f) (snd f) t) flags (threads c) /\
    holders fst flags = Nat.b2n (writer (mu (self (shared c)))) /\
    Z.of_nat (holders snd flags) = sem_cur (sem (self (shared c))) /\
    sem_cur (sem (self (shared c))) <= sem_size (sem (self (shared c))) /\
    sem_size (sem (self (shared c))) = 1 /\
    goroutines (shared c) = [].

End Interleaving.

Arguments Config W : clear implicits.

(** ** Reading a trace *)

Section Observations.

Context {W : Type} `{World W} `{Libs}.

(** The request [Provider.KeyFunc] builds for an endpoint. *)
Definition request_for (ctx : Context) (jwksURI : url_URL) : error + http_Request :=
  http_NewRequestWithContext ctx http_MethodGet (URL_String jwksURI).

(** The events of the GET on [jwksURI] made in world [w]: none when the
    request cannot be built. *)
Definition get_events (p : Provider) (ctx : Context) (jwksURI : url_URL) (w : W)
  : list Event :=
  match request_for ctx jwksURI with
  | inl _ => []
  | inr rq => [EvDo (Client p) rq (fst (Client_Do (Client p) rq w))]
  end.

End Observations.

(** The number of times [Provider.KeyFunc] was entered. *)
Definition is_fetch (e : Event) : bool :=
  match e with EvKeyFunc _ => true | _ => false end.

Definition fetches (tr : list Event) : nat := length (List.filter is_fetch tr).

(** ** A scripted world and library, for concrete runs *)

Module Script.

(** The issuer answers discovery with [discovery] after
    [discovery_latency]; the transport answers the n-th request with the
    n-th element of [responses] after [latency], and refuses the
    connection once the script is used up. *)
Record net := {
  clock : Z;
  discovery : error + oidc_WellKnownEndpoints;
  discovery_latency : Z;
  responses : list (error + http_Response);
  latency : Z
}.

Definition discover (w : net) : (error + oidc_WellKnownEndpoints) * net :=
  (discovery w,
   {| clock := clock w + discovery_latency w; discovery := discovery w;
      discovery_latency := discovery_latency w;
      responses := responses w; latency := latency w |}).

Definition round_trip (w : net) : (error + http_Response) * net :=
  let after rest :=
    {| clock := clock w + latency w; discovery := discovery w;
       discovery_latency := discovery_latency w;
       responses := rest; latency := latency w |} in
  match responses w with
  | [] => (inl (errors_New "connection refused"), after [])
  | r :: rest => (r, after rest)
  end.

#[export] Instance script_world : World net := {|
  time_Now := clock;
  oidc_GetWellKnownEndpointsFromIssuerURL := fun _ _ _ => discover;
  Client_Do := fun _ _ => round_trip
|}.

(** URLs are written as host and path; the only documents the decoder
    knows are the empty object and anything else, which is malformed. *)
#[export] Instance script_libs : Libs := {|
  url_Parse := fun s =>
    if String.eqb s "" then inl (errors_New "empty url")
    else inr {| Scheme := "https"; Host := s; Path := "" |};
  URL_String := fun u => Host u +:+ Path u;
  URL_Hostname := Host;
  http_NewRequestWithContext := fun ctx method url =>
    inr {| req_ctx := ctx; Method := method; req_url := url |};
  json_Decode := fun body =>
    if String.eqb body "{}" then inr {| Keys := [] |}
    else inl (errors_New "invalid character")
|}.

Definition issuer : url_URL :=
  {| Scheme := "https"; Host := "idp.example.com"; Path := "/" |}.

Definition jwks_uri : url_URL :=
  {| Scheme := "https"; Host := "idp.example.com"; Path := "/jwks.json" |}.

Definition ok (body : string) : error + http_Response :=
  inr {| StatusCode := 200; Body := body |}.

Definition fresh_keys : jose_JSONWebKeySet := {| Keys := [] |}.

Definition stale_keys : jose_JSONWebKeySet :=
  {| Keys := [ {| KeyID := "2019"; Algorithm := "RS256"; Use := "sig"; Key := "n,e" |} ] |}.

(** A world at time [t] whose discovery succeeds at once and whose
    transport follows the script [rs], each answer taking [d]. *)
Definition at_time (t : Z) (rs : list (error + http_Response)) (d : Z) : net :=
  {| clock := t; discovery := inr {| JWKSURI := "idp.example.com/jwks.json" |};
     discovery_latency := 0; responses := rs; latency := d |}.

Definition start (w : net) (c : CachingProvider) : St net :=
  {| world := w; self := c; goroutines := []; trace := [] |}.

Definition millisecond : Z := 1000000.

(** A provider with the key-set endpoint configured, and one that has
    to discover it. *)
Definition with_override : Provider :=
  {| IssuerURL := issuer; CustomJWKSURI := Some jwks_uri; Client := http_Client_zero |}.

Definition with_discovery : Provider :=
  {| IssuerURL := issuer; CustomJWKSURI := None; Client := http_Client_zero |}.

(** A caching provider as [NewCachingProvider] builds it, with a TTL of
    100ms, holding [entries]. *)
Definition caching (synchronous : bool) (entries : gmap string cachedJWKS)
  : CachingProvider :=
  {| Provider_ := with_override; CacheTTL := 100 * millisecond;
     mu := RWMutex_zero; cache := entries;
     sem := semaphore_NewWeighted 1; synchronousRefresh := synchronous |}.

(** The entry installed at time 0: it expires at 100ms. *)
Definition old_entry : cachedJWKS :=
  {| jwks := stale_keys; expiresAt := 100 * millisecond |}.

Definition holding_old : gmap string cachedJWKS := {[ "idp.example.com" := old_entry ]}.

Definition caller : Context := context_Of "GET /orders".
Definition next_caller : Context := context_Of "GET /invoices".

Definition server_error : error + http_Response :=
  inr {| StatusCode := 500; Body := "{}" |}.

Definition unreachable : error + http_Response :=
  inl (errors_New "dial tcp: connection refused").

(** Scenarios.  [answers_500]: the endpoint answers 500 with a JSON
    body.  [cold]: first call at time 0, the fetch takes 40ms.
    [warm t synchronous rs]: the entry of time 0 is cached, the clock
    reads [t], the transport follows [rs]. *)
Definition answers_500 : St net :=
  start (at_time 0 [server_error] 0) (caching false ∅).

Definition cold : St net :=
  start (at_time 0 [ok "{}"] (40 * millisecond)) (caching false ∅).

Definition warm (t : Z) (synchronous : bool) (rs : list (error + http_Response))
  : St net :=
  start (at_time t rs (40 * millisecond)) (caching synchronous holding_old).

(** Two calls arrive at the cold cache; the endpoint would answer both. *)
Definition two_cold_calls : Config net :=
  calls [caller; next_caller]
    (start (at_time 0 [ok "{}"; ok "{}"] (40 * millisecond)) (caching false ∅)).

(** Both calls take the read lock and find no entry; then each
    releases the read lock and runs its [refreshKey] (eight
    operations), one after the other. *)
Definition both_miss : list nat := [0; 1; 0; 0; 1; 1]%nat.

Definition refresh_in_turn : list nat :=
  [0; 1; 0; 0; 0; 0; 0; 0; 0; 0; 1; 1; 1; 1; 1; 1; 1; 1]%nat.

(** Two calls arrive at 150ms in asynchronous mode. *)
Definition two_warm_calls : Config net :=
  calls [caller; next_caller] (warm (150 * millisecond) false [ok "{}"]).

(** The first call takes the permit and starts the goroutine (thread
    2); the second finds the gate busy and returns; the first returns;
    the goroutine takes the write lock and sends its request. *)
Definition refresh_in_background : list nat :=
  [0; 0; 0; 0; 0; 0; 0; 1; 1; 1; 1; 1; 1; 0; 2; 2; 2]%nat.

End Script.

(** ** Interleaved calls: lock pairing *)

Section LockPairing.

Context {W : Type} `{World W} `{Libs}.







End LockPairing.

(** ** The options of a list, kind by kind *)

(** The provider options of [opts], and its caching options, each in
    the order of the list. *)
Definition provider_options (opts : list opt_value) : list ProviderOption :=
  flat_map (fun o => match o with opt_ProviderOption o => [o] | _ => [] end) opts.

Definition caching_options (opts : list opt_value) : list CachingProviderOption :=
  flat_map (fun o => match o with opt_CachingProviderOption o => [o] | _ => [] end) opts.

(** The options the package itself offers. *)
Inductive package_option : opt_value -> Prop :=
| package_WithCustomJWKSURI jwksURI :
    package_option (opt_ProviderOption (WithCustomJWKSURI jwksURI))
| package_WithCustomClient c :
    package_option (opt_ProviderOption (WithCustomClient c))
| package_WithSynchronousRefresh blocking :
    package_option (opt_CachingProviderOption (WithSynchronousRefresh blocking)).

(** The struct [NewCachingProvider] fills in before it applies the
    caching options. *)
Definition new_caching_provider (p : Provider) (cacheTTL : Z) : CachingProvider :=
  {| Provider_ := p;
     CacheTTL := if cacheTTL =? 0 then 1 * time_Minute else cacheTTL;
     mu := RWMutex_zero; cache := ∅;
     sem := semaphore_NewWeighted 1; synchronousRefresh := false |}.

(** ** A library that refuses to build a request for a URL with a space
    in it, as [net/url] does for a space in the host *)

Module Strict.

Fixpoint has_space (s : string) : bool :=
  match s with
  | EmptyString => false
  | String c rest =>
      if Ascii.eqb c (Ascii.ascii_of_nat 32) then true else has_space rest
  end.

#[export] Instance strict_libs : Libs := {|
  url_Parse := fun s => inr {| Scheme := "https"; Host := s; Path := "" |};
  URL_String := fun u => Host u +:+ Path u;
  URL_Hostname := Host;
  http_NewRequestWithContext := fun ctx method url =>
    if has_space url then inl (errors_New "invalid character in host name")
    else inr {| req_ctx := ctx; Method := method; req_url := url |};
  json_Decode := fun body =>
    if String.eqb body "{}" then inr {| Keys := [] |}
    else inl (errors_New "invalid character")
|}.

Definition mistyped : Provider :=
  {| IssuerURL := Script.issuer;
     CustomJWKSURI := Some {| Scheme := "https"; Host := "idp.example .com"; Path := "" |};
     Client := http_Client_zero |}.

End Strict.

(** ** More scenarios on the scripted world *)

Module Cases.

Import Script.



(** A provider whose TTL is minus one millisecond. *)
Definition impatient (synchronous : bool) : St net :=
  start (at_time 0 [ok "{}"; ok "{}"] (40 * millisecond))
    {| Provider_ := with_override; CacheTTL := - millisecond;
       mu := RWMutex_zero; cache := ∅;
       sem := semaphore_NewWeighted 1; synchronousRefresh := synchronous |}.

(** An issuer whose discovery document names no endpoint. *)
Definition names_nothing : St net :=
  start {| clock := 0; discovery := inr {| JWKSURI := "" |};
           discovery_latency := 5 * millisecond;
           responses := [ok "{}"]; latency := 40 * millisecond |}
    (caching false ∅).

End Cases.

(** * Properties *)

(** Case analysis on whatever the program and the statement branch on
    next. *)
Ltac fetch_cases :=
  repeat (cbn;
    match goal with
    | |- context [match ?x with _ => _ end] =>
        match type of x with
        | option _ => destruct x eqn:?
        | sum _ _ => destruct x eqn:?
        | prod _ _ => destruct x eqn:?
        end
    end); cbn.

(** Bring every state that appears to the form of a record. *)
Ltac norm_state :=
  unfold write_locked, gate_tried, with_self, with_world, with_goroutines,
    record, set_mu, set_cache, set_sem in *;
  cbn [world self goroutines trace Provider_ CacheTTL mu cache sem
       synchronousRefresh writer readers fst snd] in *.

(** ** The key fetcher, [Provider.KeyFunc] *)

Section KeyFetcher.

Context {W : Type} `{World W} `{Libs}.

(** C8. With an override configured, [Provider.KeyFunc] makes no
    discovery call: its only outbound call is the GET on the override,
    made on the world as found.  Without one, its first call is the
    discovery on the issuer URL; when discovery fails, that error is
    returned and no GET follows; when it succeeds, the GET goes to the
    endpoint discovery named. *)
Theorem C8_endpoint_resolution (p : Provider) (ctx : Context) (s : St W) :
  exists r s' evs,
    run (Provider_KeyFunc p ctx) s = Done r s' /\
    trace s' = trace s ++ EvKeyFunc ctx :: evs /\
    match CustomJWKSURI p with
    | Some jwksURI => evs = get_events p ctx jwksURI (world s)
    | None =>
        let (wk, w1) :=
          oidc_GetWellKnownEndpointsFromIssuerURL ctx (Client p) (IssuerURL p) (world s) in
        exists rest,
          evs = EvDiscovery ctx (Client p) (IssuerURL p) wk :: rest /\
          match wk with
          | inl err => r = (None, Some err) /\ rest = []
          | inr wkEndpoints =>
              match url_Parse (JWKSURI wkEndpoints) with
              | inl _ => rest = []
              | inr jwksURI => rest = get_events p ctx jwksURI w1
              end
          end
    end.
Proof.
  unfold Provider_KeyFunc, get_events, request_for.
  fetch_cases; do 3 eexists; (split; [reflexivity|]); cbn;
    rewrite <- ?app_assoc; cbn; (split; [reflexivity|]); eauto.
Qed.

(** C1, in the form the code satisfies. [Provider.KeyFunc] always returns, and never returns
    both a key set and an error.  A failed discovery and a failed
    transport call are returned as the collaborator reported them,
    without context added here.  Once a response arrives only its body
    counts: if it does not decode the error is wrapped as
    "could not decode jwks", and if it decodes the key set is returned
    with a nil error, whatever the status code. *)
Theorem C1_fetch_failures (p : Provider) (ctx : Context) (s : St W) :
  exists r s' evs,
    run (Provider_KeyFunc p ctx) s = Done r s' /\
    trace s' = trace s ++ EvKeyFunc ctx :: evs /\
    (forall err, snd r = Some err -> fst r = None) /\
    (forall c cl u err,
        In (EvDiscovery c cl u (inl err)) evs -> r = (None, Some err)) /\
    (forall cl rq err,
        In (EvDo cl rq (inl err)) evs -> r = (None, Some err)) /\
    (forall cl rq response,
        In (EvDo cl rq (inr response)) evs ->
        r = match json_Decode (Body response) with
            | inl err => (None, Some (fmt_Errorf "could not decode jwks" err))
            | inr keys => (Some keys, None)
            end).
Proof.
  unfold Provider_KeyFunc.
  fetch_cases; do 3 eexists; (split; [reflexivity|]); cbn;
    rewrite <- ?app_assoc; cbn; (split; [reflexivity|]);
    repeat split; intros; simpl in *;
    repeat match goal with
    | H : _ \/ _ |- _ => destruct H
    | H : False |- _ => destruct H
    end; simplify_eq; try reflexivity;
    repeat match goal with
    | H : ?x = _ |- context [match ?x with _ => _ end] => rewrite H
    end; reflexivity.
Qed.

End KeyFetcher.

(** ** The caching layer *)

Section CachingLayer.

Context {W : Type} `{World W} `{Libs}.

Lemma run_bind {A B : Type} (p : Prog A) (f : A -> Prog B) (s : St W) :
  run (bind p f) s =
  match run p s with
  | Done a s' => run (f a) s'
  | Blocked => Blocked
  | Panicked msg => Panicked msg
  end.
Proof.
  revert s. induction p as [a | X op k IH]; intros s; cbn; [reflexivity|].
  destruct (exec op s); [apply IH | reflexivity | reflexivity].
Qed.

(** The key fetcher always returns (it takes no lock and has no panic
    of its own): a key set or an error, never both or neither.  It
    records its entry, and leaves the receiver alone. *)
Lemma Provider_KeyFunc_result (p : Provider) (ctx : Context) (s : St W) :
  exists r s' evs,
    run (Provider_KeyFunc p ctx) s = Done r s' /\
    self s' = self s /\ goroutines s' = goroutines s /\
    trace s' = trace s ++ EvKeyFunc ctx :: evs /\
    fetches (trace s') = S (fetches (trace s)) /\
    ((exists keys, r = (Some keys, None)) \/ (exists err, r = (None, Some err))).
Proof.
  unfold Provider_KeyFunc, fetches.
  fetch_cases; do 3 eexists; (split; [reflexivity|]); cbn;
    rewrite ?List.filter_app, ?length_app, <- ?app_assoc; cbn;
    (repeat split; [lia | eauto]).
Qed.

(** What one call of [refreshKey] does on a free mutex, in terms of the
    fetch it makes under the write lock. *)
Lemma refreshKey_run (ctx : Context) (issuer : string) (s : St W) :
  mu (self s) = RWMutex_zero ->
  exists r s1 s' evs,
    run (Provider_KeyFunc (Provider_ (self s)) ctx) (write_locked s) = Done r s1 /\
    run (refreshKey ctx issuer) s = Done r s' /\
    world s' = world s1 /\
    trace s' = trace s ++ EvKeyFunc ctx :: evs /\
    goroutines s' = goroutines s /\
    fetches (trace s') = S (fetches (trace s)) /\
    ((exists keys, r = (Some keys, None) /\
        self s' = set_cache
          (<[issuer := {| jwks := keys;
                          expiresAt := time_Now (world s') + CacheTTL (self s) |}]>
             (cache (self s))) (self s))
     \/ (exists err, r = (None, Some err) /\ self s' = self s)).
Proof.
  intros Hfree.
  destruct (Provider_KeyFunc_result (Provider_ (self s)) ctx (write_locked s))
    as (r & s1 & evs & Hrun & Hself & Hgo & Htr & Hn & Hr).
  exists r, s1.
  unfold refreshKey. rewrite run_bind. cbn [run call exec].
  rewrite Hfree. cbn [writer readers RWMutex_zero].
  fold (write_locked s).
  rewrite run_bind. cbn [run call exec].
  replace (Provider_ (self (write_locked s))) with (Provider_ (self s)) by reflexivity.
  rewrite run_bind, Hrun.
  destruct s as [w c gs tr], c as [pr ttl m ca se sy], s1 as [w1 c1 gs1 tr1].
  cbn in Hfree, Hself, Hgo, Hn, Htr. subst m c1 gs1.
  destruct Hr as [[keys ->] | [err ->]]; cbn; eexists; exists evs;
    (split; [reflexivity|]); cbn; repeat split; eauto.
Qed.

(** An entry that has not expired is served from the cache and the
    state is left exactly as found. *)
Lemma KeyFunc_not_expired (ctx : Context) (s : St W) (cached : cachedJWKS) :
  writer (mu (self s)) = false ->
  cache (self s) !! issuer_of (self s) = Some cached ->
  time_Now (world s) <= expiresAt cached ->
  run (CachingProvider_KeyFunc ctx) s = Done (Some (jwks cached), None) s.
Proof.
  intros Hw Hc Hnow. unfold CachingProvider_KeyFunc, issuer_of in *.
  destruct s as [w c gs tr], c as [pr ttl [wr rd] ca se sy].
  cbn in Hw, Hc, Hnow |- *. subst wr. cbn. rewrite Hc. cbn.
  replace (time_Now w >? expiresAt cached) with false
    by (symmetry; rewrite Z.gtb_ltb; apply Z.ltb_ge; exact Hnow).
  reflexivity.
Qed.

(** With no entry for the issuer, [KeyFunc] is [refreshKey]. *)
Lemma KeyFunc_miss (ctx : Context) (s : St W) :
  writer (mu (self s)) = false ->
  cache (self s) !! issuer_of (self s) = None ->
  run (CachingProvider_KeyFunc ctx) s = run (refreshKey ctx (issuer_of (self s))) s.
Proof.
  intros Hw Hc. unfold CachingProvider_KeyFunc, issuer_of in *.
  destruct s as [w c gs tr], c as [pr ttl [wr rd] ca se sy].
  cbn in Hw, Hc |- *. subst wr. cbn. rewrite Hc. reflexivity.
Qed.

(** C3. A call that finds a valid entry ([now < expiresAt]) returns the
    cached key set with a nil error and changes nothing: no fetch, no
    permit taken, no goroutine started. *)
Theorem C3_valid_entry_served (ctx : Context) (s : St W) (cached : cachedJWKS) :
  writer (mu (self s)) = false ->
  cache (self s) !! issuer_of (self s) = Some cached ->
  time_Now (world s) < expiresAt cached ->
  run (CachingProvider_KeyFunc ctx) s = Done (Some (jwks cached), None) s.
Proof.
  intros Hw Hc Hnow. apply KeyFunc_not_expired; [assumption | assumption | lia].
Qed.

(** C10. At the very instant of expiry ([now = expiresAt]) the entry
    still counts as valid: the cached key set is returned and nothing
    is refreshed. *)
Theorem C10_expiry_is_strict (ctx : Context) (s : St W) (cached : cachedJWKS) :
  writer (mu (self s)) = false ->
  cache (self s) !! issuer_of (self s) = Some cached ->
  time_Now (world s) = expiresAt cached ->
  run (CachingProvider_KeyFunc ctx) s = Done (Some (jwks cached), None) s.
Proof.
  intros Hw Hc Hnow. apply KeyFunc_not_expired; [assumption | assumption | lia].
Qed.

(** C6. [refreshKey] makes one fetch under the write lock and returns
    its result.  On success the issuer's entry is replaced by a whole
    new one that expires a TTL after the clock reading taken once the
    fetch is back; on failure the cache map is the one it found. *)
Theorem C6_refreshKey (ctx : Context) (issuer : string) (s : St W) :
  mu (self s) = RWMutex_zero ->
  exists r s1 s',
    run (Provider_KeyFunc (Provider_ (self s)) ctx) (write_locked s) = Done r s1 /\
    run (refreshKey ctx issuer) s = Done r s' /\
    match r with
    | (Some keys, None) =>
        cache (self s') =
          <[issuer := {| jwks := keys;
                         expiresAt := time_Now (world s1) + CacheTTL (self s) |}]>
            (cache (self s))
    | (_, Some err) => fst r = None /\ cache (self s') = cache (self s)
    | (None, None) => False
    end.
Proof.
  intros Hfree.
  destruct (refreshKey_run ctx issuer s Hfree)
    as (r & s1 & s' & evs & Hfetch & Hrun & Hw & _ & _ & _ & Hr).
  exists r, s1, s'. split; [exact Hfetch|]. split; [exact Hrun|].
  destruct Hr as [(keys & -> & ->) | (err & -> & ->)]; cbn.
  - rewrite Hw. reflexivity.
  - split; reflexivity.
Qed.


(** C5. In synchronous mode a call that finds an expired entry and gets
    the permit runs [refreshKey] on the caller's context and returns
    what it returns: the fetched key set, now cached, or the fetch
    error with no key set.  The permit is given back. *)
Theorem C5_synchronous_refresh (ctx : Context) (s : St W) (cached : cachedJWKS) :
  mu (self s) = RWMutex_zero ->
  cache (self s) !! issuer_of (self s) = Some cached ->
  expiresAt cached < time_Now (world s) ->
  synchronousRefresh (self s) = true ->
  fst (Weighted_TryAcquire (sem (self s)) 1) = true ->
  0 <= sem_cur (sem (self s)) ->
  exists r s1 s' evs,
    run (refreshKey ctx (issuer_of (self s))) (gate_tried s) = Done r s1 /\
    run (CachingProvider_KeyFunc ctx) s = Done r s' /\
    trace s' = trace s ++ EvKeyFunc ctx :: evs /\
    fetches (trace s') = S (fetches (trace s)) /\
    sem (self s') = sem (self s) /\
    ((exists keys,
        r = (Some keys, None) /\
        cache (self s') !! issuer_of (self s) =
          Some {| jwks := keys;
                  expiresAt := time_Now (world s') + CacheTTL (self s) |})
     \/ (exists err, r = (None, Some err))).
Proof.
  intros Hfree Hc Hexp Hsync Hgate Hcur.
  destruct (refreshKey_run ctx (issuer_of (self s)) (gate_tried s) Hfree)
    as (r & s1 & s2 & evs & _ & Hrun & Hw & Htr & _ & Hn & Hr).
  exists r, s2.
  unfold CachingProvider_KeyFunc, issuer_of, gate_tried in *.
  destruct s as [w c gs tr], c as [pr ttl [wr rd] ca se sy].
  cbn in Hfree, Hc, Hexp, Hsync, Hgate, Hcur, Hrun, Htr, Hn, Hr |- *.
  injection Hfree as -> ->. subst sy. cbn. rewrite Hc. cbn.
  replace (time_Now w >? expiresAt cached) with true
    by (symmetry; apply Z.gtb_lt; exact Hexp).
  cbn. unfold Weighted_TryAcquire in *.
  destruct (1 <=? sem_size se - sem_cur se); [clear Hgate | discriminate Hgate].
  cbn. norm_state. rewrite run_bind, Hrun.
  destruct s2 as [w2 c2 gs2 tr2]. cbn in Htr, Hn, Hr, Hw |- *.
  unfold Weighted_Release.
  destruct Hr as [(keys & -> & ->) | (err & -> & ->)]; cbn; norm_state;
    (replace (sem_cur se + 1 - 1 <? 0) with false
       by (symmetry; apply Z.ltb_ge; lia));
    cbn; eexists; exists evs; (split; [reflexivity|]);
    (split; [reflexivity|]); cbn;
    (split; [exact Htr|]); (split; [exact Hn|]);
    (split; [destruct se; cbn; f_equal; lia|]).
  - left. exists keys. split; [reflexivity|]. apply lookup_insert_eq.
  - right. exists err. reflexivity.
Qed.



End CachingLayer.

(** ** Construction *)

Section Construction.




Lemma WithSynchronousRefresh_configures_only (blocking : bool) :
  configures_only (WithSynchronousRefresh blocking).
Proof. intros cp. split; reflexivity. Qed.


End Construction.

(** ** Interleaved calls: the locking discipline *)

Section Discipline.

Context {W : Type} `{World W} `{Libs}.

Lemma follows_weaken {A : Type} (Q Q' : A -> bool -> bool -> Prop) (p : Prog A) :
  (forall a l g, Q a l g -> Q' a l g) ->
  forall l g, follows Q l g p -> follows Q' l g p.
Proof.
  intros HQ. induction p as [a | X op k IH]; intros l g; cbn; [apply HQ|].
  destruct (op_next op l g) as [next|]; [|exact id].
  intros Hk x. apply IH, Hk.
Qed.

Lemma follows_bind {A B : Type} (Q : B -> bool -> bool -> Prop)
    (p : Prog A) (f : A -> Prog B) :
  forall l g,
    follows (fun a l' g' => follows Q l' g' (f a)) l g p ->
    follows Q l g (bind p f).
Proof.
  induction p as [a | X op k IH]; intros l g; cbn; [exact id|].
  destruct (op_next op l g) as [next|]; [|exact id].
  intros Hk x. apply IH, Hk.
Qed.

(** Split a goal [follows Q l g p] along the operations and branches
    of [p]. *)
Ltac walk :=
  repeat (cbn [follows bind call op_next fst snd andb negb Z.eqb Pos.eqb];
    match goal with
    | |- forall _, _ => intro
    | |- _ /\ _ => split
    | |- follows _ _ _ (match ?x with _ => _ end) => destruct x
    | |- follows _ _ _ (if ?x then _ else _) => destruct x
    | |- follows _ _ _ (bind (match ?x with _ => _ end) _) => destruct x
    | |- follows _ _ _ (bind (if ?x then _ else _) _) => destruct x
    end); cbn [follows bind call op_next fst snd andb negb Z.eqb Pos.eqb].

(** The key fetcher runs under the write lock, keeps it, and returns a
    key set or an error. *)
Lemma Provider_KeyFunc_follows (p : Provider) (ctx : Context) (g : bool) :
  follows (fun r l' g' =>
             l' = true /\ g' = g /\
             ((exists keys, r = (Some keys, None)) \/ (exists err, r = (None, Some err))))
    true g (Provider_KeyFunc p ctx).
Proof. unfold Provider_KeyFunc. walk; eauto. Qed.

(** [refreshKey] takes the write lock and gives it back. *)
Lemma refreshKey_follows (ctx : Context) (issuer : string) (g : bool) :
  follows (fun _ l' g' => l' = false /\ g' = g) false g (refreshKey ctx issuer).
Proof.
  unfold refreshKey. walk.
  apply follows_bind.
  eapply follows_weaken; [|apply Provider_KeyFunc_follows].
  intros r l' g' (-> & -> & [[keys ->] | [err ->]]); walk; auto.
Qed.

(** The goroutine is handed the permit and releases it. *)
Lemma goroutine_follows (gr : Goroutine) :
  thread_follows false true (Spawned (goroutine_body gr)).
Proof.
  destruct gr as [issuer]. unfold thread_follows, goroutine_body.
  apply follows_bind.
  eapply follows_weaken; [|apply refreshKey_follows].
  intros r l' g' [-> ->]. walk; auto.
Qed.

(** A call holds nothing when it starts and nothing when it returns. *)
Lemma KeyFunc_follows (ctx : Context) :
  thread_follows false false (Caller (CachingProvider_KeyFunc ctx)).
Proof.
  unfold thread_follows, CachingProvider_KeyFunc. walk; auto;
    try (apply follows_bind; eapply follows_weaken; [|apply refreshKey_follows];
         intros r l' g' [-> ->]; walk; auto);
    try (eapply follows_weaken; [|apply refreshKey_follows];
         intros r l' g' [-> ->]; auto).
Qed.

(** *** Counting holders *)

Lemma holders_app which (l1 l2 : list (bool * bool)) :
  holders which (l1 ++ l2) = (holders which l1 + holders which l2)%nat.
Proof. induction l1 as [|f l1 IH]; cbn; [reflexivity | rewrite IH; lia]. Qed.

Lemma holders_insert which (flags : list (bool * bool)) (i : nat) f f' :
  flags !! i = Some f ->
  (holders which (<[i := f']> flags) + Nat.b2n (which f)
   = holders which flags + Nat.b2n (which f'))%nat.
Proof.
  revert i. induction flags as [|f0 flags IH]; intros [|i] Hi; simpl in *;
    try discriminate.
  - injection Hi as ->. lia.
  - specialize (IH i Hi). lia.
Qed.

Lemma holders_two which (flags : list (bool * bool)) (i j : nat) fi fj :
  i <> j -> flags !! i = Some fi -> flags !! j = Some fj ->
  (Nat.b2n (which fi) + Nat.b2n (which fj) <= holders which flags)%nat.
Proof.
  revert i j. induction flags as [|f0 flags IH]; intros [|i] [|j] Hne Hi Hj;
    cbn in *; try discriminate; try congruence.
  - injection Hi as ->.
    assert (Nat.b2n (which fj) <= holders which flags)%nat; [|lia].
    clear -Hj. revert j Hj. induction flags as [|f1 flags IH]; intros [|j] Hj;
      cbn in *; try discriminate.
    + injection Hj as ->. lia.
    + specialize (IH j Hj). lia.
  - injection Hj as ->.
    assert (Nat.b2n (which fi) <= holders which flags)%nat; [|lia].
    clear -Hi. revert i Hi. induction flags as [|f1 flags IH]; intros [|i] Hi;
      cbn in *; try discriminate.
    + injection Hi as ->. lia.
    + specialize (IH i Hi). lia.
  - assert (i <> j) by congruence. specialize (IH i j ltac:(assumption) Hi Hj). lia.
Qed.

Lemma holders_replicate_permit (n : nat) :
  holders fst (replicate n (false, true)) = 0%nat /\
  holders snd (replicate n (false, true)) = n.
Proof. induction n as [|n [IH1 IH2]]; cbn; [auto | rewrite IH1, IH2; auto]. Qed.

Lemma holders_replicate_none (n : nat) :
  holders fst (replicate n (false, false)) = 0%nat /\
  holders snd (replicate n (false, false)) = 0%nat.
Proof. induction n as [|n [IH1 IH2]]; cbn; auto. Qed.

(** *** What one operation does to the lock and the semaphore, against
    what it does to the flags of the thread that runs it *)
Lemma exec_effect {X : Type} (op : Op X) (l g : bool) next (x : X) (s s' : St W) :
  op_next op l g = Some next ->
  exec op s = Done x s' ->
  exists started,
    goroutines s' = goroutines s ++ started /\
    (Nat.b2n (writer (mu (self s'))) + Nat.b2n l
     = Nat.b2n (writer (mu (self s))) + Nat.b2n (fst (next x)))%nat /\
    sem_cur (sem (self s')) + Z.of_nat (Nat.b2n g)
    = sem_cur (sem (self s)) + Z.of_nat (Nat.b2n (snd (next x)))
      + Z.of_nat (length started) /\
    sem_size (sem (self s')) = sem_size (sem (self s)) /\
    (sem_cur (sem (self s)) <= sem_size (sem (self s)) ->
     sem_cur (sem (self s')) <= sem_size (sem (self s'))).
Proof.
  intros Hnext Hexec.
  destruct op; cbn in Hnext, Hexec;
    repeat match type of Hnext with
    | (if ?b then _ else _) = _ => destruct b eqn:?; cbn in Hnext
    end; try discriminate Hnext; injection Hnext as <-;
    repeat match type of Hexec with
    | match ?b with _ => _ end = _ => destruct b eqn:?; cbn in Hexec
    end; try discriminate Hexec; injection Hexec as Hx Hs; subst x s';
    try (exists []; rewrite app_nil_r; cbn; repeat split; try lia; fail).
  all: try match goal with
    | E : writer (mu (self _)) = _ |- _ =>
        exists []; rewrite app_nil_r; cbn; rewrite E; cbn; repeat split; lia
    end.
  - (* TryAcquire *)
    apply Z.eqb_eq in Heqb0. subst n g. unfold Weighted_TryAcquire in Heqp.
    exists []. rewrite app_nil_r.
    destruct (1 <=? sem_size (sem (self s)) - sem_cur (sem (self s))) eqn:Hfree;
      injection Heqp as <- <-; cbn; repeat split; try lia;
      apply Z.leb_le in Hfree; lia.
  - (* Release *)
    apply andb_prop in Heqb as [-> Hn]. apply Z.eqb_eq in Hn. subst n.
    unfold Weighted_Release in Heqo.
    exists []. rewrite app_nil_r.
    destruct (sem_cur (sem (self s)) - 1 <? 0); [discriminate Heqo|].
    injection Heqo as <-. cbn. repeat split; lia.
  - (* Go *)
    exists [g0]. cbn. repeat split; lia.
Qed.

(** *** The discipline is kept by every step *)

Lemma step_thread_follows (t t' : Thread) (l g : bool) (s s' : St W) :
  thread_follows l g t ->
  step_thread t s = Some (t', s') ->
  exists l' g' started,
    thread_follows l' g' t' /\
    goroutines s' = goroutines s ++ started /\
    (Nat.b2n (writer (mu (self s'))) + Nat.b2n l
     = Nat.b2n (writer (mu (self s))) + Nat.b2n l')%nat /\
    sem_cur (sem (self s')) + Z.of_nat (Nat.b2n g)
    = sem_cur (sem (self s)) + Z.of_nat (Nat.b2n g') + Z.of_nat (length started) /\
    sem_size (sem (self s')) = sem_size (sem (self s)) /\
    (sem_cur (sem (self s)) <= sem_size (sem (self s)) ->
     sem_cur (sem (self s')) <= sem_size (sem (self s'))).
Proof.
  intros Hok Hstep.
  destruct t as [[a | X op k] | [a | X op k]]; cbn in Hok, Hstep;
    try discriminate Hstep;
    (destruct (op_next op l g) as [next|] eqn:Hnext; [|contradiction]);
    (destruct (exec op s) as [x s1 | |] eqn:Hexec; try discriminate Hstep);
    injection Hstep as <- <-;
    destruct (exec_effect op l g next x s s1 Hnext Hexec) as (started & Heff);
    exists (fst (next x)), (snd (next x)), started;
    (split; [apply Hok | exact Heff]).
Qed.

Lemma started_follow (started : list Goroutine) :
  Forall2 (fun f t => thread_follows (fst f) (snd f) t)
    (replicate (length started) (false, true))
    (map (fun g => Spawned (goroutine_body g)) started).
Proof.
  induction started as [|g started IH]; cbn; constructor;
    [apply goroutine_follows | exact IH].
Qed.

Lemma step_consistent (i : nat) (c c' : Config W) :
  consistent c -> step i c = Some c' -> consistent c'.
Proof.
  intros (flags & Hall & Hlock & Hsem & Hle & Hsize & Hgo) Hstep.
  unfold step in Hstep.
  destruct (threads c !! i) as [t|] eqn:Hi; [|discriminate Hstep].
  destruct (step_thread t (shared c)) as [[t' s']|] eqn:Ht; [|discriminate Hstep].
  injection Hstep as <-.
  destruct (Forall2_lookup_r _ _ _ _ _ Hall Hi) as ([l g] & Hfi & Hok).
  destruct (step_thread_follows t t' l g _ _ Hok Ht)
    as (l' & g' & started & Hok' & Hstarted & Hl & Hg & Hsz & Hbound).
  rewrite Hgo in Hstarted. cbn in Hstarted.
  exists (<[i := (l', g')]> flags ++ replicate (length started) (false, true)).
  cbn. rewrite Hstarted, !holders_app.
  destruct (holders_replicate_permit (length started)) as [-> ->].
  pose proof (holders_insert fst flags i (l, g) (l', g') Hfi) as Hfst.
  pose proof (holders_insert snd flags i (l, g) (l', g') Hfi) as Hsnd.
  cbn in Hfst, Hsnd.
  repeat split.
  - apply Forall2_app; [|apply started_follow].
    apply Forall2_insert; assumption.
  - lia.
  - lia.
  - apply Hbound, Hle.
  - congruence.
Qed.

Lemma steps_consistent (schedule : list nat) (c c' : Config W) :
  consistent c -> steps schedule c = Some c' -> consistent c'.
Proof.
  revert c. induction schedule as [|i rest IH]; intros c Hc Hsteps; cbn in Hsteps.
  - injection Hsteps as <-. exact Hc.
  - destruct (step i c) as [c1|] eqn:Hstep; [|discriminate Hsteps].
    eapply IH; [eapply step_consistent; eassumption | exact Hsteps].
Qed.

(** Calls that have not started, on a free mutex and a free gate. *)
Lemma calls_consistent (ctxs : list Context) (s : St W) :
  mu (self s) = RWMutex_zero ->
  sem (self s) = semaphore_NewWeighted 1 ->
  goroutines s = [] ->
  consistent (calls ctxs s).
Proof.
  intros Hmu Hsem Hgo.
  exists (replicate (length ctxs) (false, false)).
  destruct (holders_replicate_none (length ctxs)) as [-> ->].
  cbn. rewrite Hmu, Hsem. cbn. repeat split; try lia; try assumption.
  clear. induction ctxs as [|ctx ctxs IH]; cbn; constructor;
    [apply KeyFunc_follows | exact IH].
Qed.

(** *** The flags of a thread are determined by what it has left to run *)

Lemma op_next_inhabited {X : Type} (op : Op X) (l g : bool) next :
  op_next op l g = Some next -> inhabited X.
Proof.
  destruct op; cbn; intros Hnext; try discriminate Hnext;
    try (constructor; first [exact tt | exact true | exact 0 | exact (inl (errors_New ""))]).
  constructor. apply field.
  exact {| Provider_ := NewProvider {| Scheme := ""; Host := ""; Path := "" |} [];
           CacheTTL := 0; mu := RWMutex_zero; cache := ∅;
           sem := semaphore_NewWeighted 1; synchronousRefresh := false |}.
Qed.

Lemma op_next_unique {X : Type} (op : Op X) (l g l' g' : bool) next next' (x : X) :
  op_next op l g = Some next ->
  op_next op l' g' = Some next' ->
  next x = next' x ->
  l = l' /\ g = g'.
Proof.
  destruct op; cbn; intros Hn Hn' Hx;
    repeat match goal with
    | H : (if ?b then _ else _) = _ |- _ => destruct b eqn:?; cbn in H
    end; try discriminate;
    injection Hn as <-; injection Hn' as <-; cbn in Hx;
    try (injection Hx as -> ->); try (injection Hx as ->); try (injection Hx as _ ->);
    repeat match goal with
    | H : (_ && _)%bool = true |- _ => apply andb_prop in H as [? ?]
    end; subst; auto.
Qed.

Lemma follows_unique {A : Type} (Q : A -> bool -> bool -> Prop) (p : Prog A) :
  (forall a l g l' g', Q a l g -> Q a l' g' -> l = l' /\ g = g') ->
  forall l g l' g',
    follows Q l g p -> follows Q l' g' p -> l = l' /\ g = g'.
Proof.
  intros HQ. induction p as [a | X op k IH]; intros l g l' g'; cbn; [apply HQ|].
  destruct (op_next op l g) as [next|] eqn:Hn; [|contradiction].
  destruct (op_next op l' g') as [next'|] eqn:Hn'; [|contradiction].
  intros Hk Hk'.
  destruct (op_next_inhabited op l g next Hn) as [x].
  destruct (IH x _ _ _ _ (Hk x) (Hk' x)) as [Hl Hg].
  apply (op_next_unique op l g l' g' next next' x Hn Hn').
  destruct (next x), (next' x); cbn in *; congruence.
Qed.

Lemma thread_follows_unique (t : Thread) (l g l' g' : bool) :
  thread_follows l g t -> thread_follows l' g' t -> l = l' /\ g = g'.
Proof.
  destruct t as [p | p]; cbn; apply follows_unique;
    intros a l1 g1 l2 g2 [-> ->] [-> ->]; auto.
Qed.

(** Only a thread that holds the write lock has an outbound call
    pending. *)
Lemma fetching_under_lock (t : Thread) (l g : bool) :
  thread_follows l g t -> fetching t = true -> l = true.
Proof.
  destruct t as [[a | X op k] | [a | X op k]]; cbn; try discriminate;
    destruct op; cbn; try discriminate; destruct l; auto; contradiction.
Qed.

(** C7, in the form the code satisfies. Take any number of calls to [KeyFunc] on one provider
    whose mutex and one-permit gate are free, and interleave them and
    the goroutines they start in any way.  At no point do two threads
    have an outbound call pending, or hold the write lock, or hold the
    permit: fetches never overlap, because each is made under the
    write lock, and at most one refresh that took the gate is in
    flight. *)
Theorem C7_one_refresh_at_a_time
    (ctxs : list Context) (s : St W) (schedule : list nat) (c : Config W)
    (i j : nat) (ti tj : Thread) :
  mu (self s) = RWMutex_zero ->
  sem (self s) = semaphore_NewWeighted 1 ->
  goroutines s = [] ->
  steps schedule (calls ctxs s) = Some c ->
  i <> j ->
  threads c !! i = Some ti ->
  threads c !! j = Some tj ->
  ~ (fetching ti = true /\ fetching tj = true) /\
  ~ (holds_write_lock ti /\ holds_write_lock tj) /\
  ~ (holds_permit ti /\ holds_permit tj).
Proof.
  intros Hmu Hsem Hgo Hsteps Hij Hi Hj.
  destruct (steps_consistent schedule _ c (calls_consistent ctxs s Hmu Hsem Hgo) Hsteps)
    as (flags & Hall & Hlock & Hpermit & Hle & Hsize & _).
  destruct (Forall2_lookup_r _ _ _ _ _ Hall Hi) as ([li gi] & Hfi & Hoki).
  destruct (Forall2_lookup_r _ _ _ _ _ Hall Hj) as ([lj gj] & Hfj & Hokj).
  cbn in Hoki, Hokj.
  pose proof (holders_two fst flags i j _ _ Hij Hfi Hfj) as Hlocks.
  pose proof (holders_two snd flags i j _ _ Hij Hfi Hfj) as Hpermits.
  cbn in Hlocks, Hpermits.
  assert (Hone : (Nat.b2n (writer (mu (self (shared c)))) <= 1)%nat)
    by (destruct (writer (mu (self (shared c)))); cbn; lia).
  assert (Hwrite : ~ (li = true /\ lj = true))
    by (intros [-> ->]; cbn in Hlocks; lia).
  assert (Hgate : ~ (gi = true /\ gj = true))
    by (intros [-> ->]; cbn in Hpermits; lia).
  repeat split.
  - intros [Hti Htj]. apply Hwrite. split; eapply fetching_under_lock; eassumption.
  - intros [[g Hti] [g' Htj]]. apply Hwrite. split.
    + apply (thread_follows_unique ti li gi true g Hoki Hti).
    + apply (thread_follows_unique tj lj gj true g' Hokj Htj).
  - intros [[l Hti] [l' Htj]]. apply Hgate. split.
    + apply (thread_follows_unique ti li gi l true Hoki Hti).
    + apply (thread_follows_unique tj lj gj l' true Hokj Htj).
Qed.

End Discipline.

(** ** A call scheduled without interruption

    The interleaved semantics moves the goroutines a thread starts into
    the pool, where [run] leaves them listed in the state.  Apart from
    that, a thread that is scheduled until it returns does what [run]
    says. *)

Section Uninterrupted.

Context {W : Type} `{World W} `{Libs}.

(** No operation reads the list of started goroutines. *)
Lemma exec_goroutines {X : Type} (op : Op X) (s : St W) (gs : list Goroutine) :
  match exec op s with
  | Done x s' =>
      exists started,
        goroutines s' = goroutines s ++ started /\
        exec op (with_goroutines gs s) = Done x (with_goroutines (gs ++ started) s')
  | Blocked => exec op (with_goroutines gs s) = Blocked
  | Panicked msg => exec op (with_goroutines gs s) = Panicked msg
  end.
Proof.
  destruct op; cbn;
    repeat match goal with
    | |- context [match ?b with _ => _ end] =>
        lazymatch b with
        | context [match _ with _ => _ end] => fail
        | _ => destruct b eqn:?; cbn
        end
    end; try reflexivity;
    try (exists []; rewrite !app_nil_r; split; reflexivity).
  eexists. split; reflexivity.
Qed.

Lemma run_goroutines {A : Type} (p : Prog A) (s s' : St W) (r : A) :
  run p s = Done r s' ->
  exists started,
    goroutines s' = goroutines s ++ started /\
    forall gs, run p (with_goroutines gs s) = Done r (with_goroutines (gs ++ started) s').
Proof.
  revert s. induction p as [a | X op k IH]; intros s; cbn.
  - intros [= <- <-]. exists []. rewrite app_nil_r. split; [reflexivity|].
    intros gs. rewrite app_nil_r. reflexivity.
  - pose proof (exec_goroutines op s) as Hexec.
    destruct (exec op s) as [x s1 | |]; try discriminate.
    intros Hrun. destruct (IH x s1 Hrun) as (later & Hlater & Hany).
    destruct (Hexec []) as (started & Hstarted & _).
    exists (started ++ later). split; [rewrite Hlater, Hstarted, app_assoc; reflexivity|].
    intros gs. destruct (Hexec gs) as (started' & Hstarted' & ->).
    assert (started' = started) as ->
      by (symmetry; apply (app_inv_head (goroutines s)); congruence).
    specialize (Hany (gs ++ started)). cbn in Hany |- *.
    rewrite app_assoc. exact Hany.
Qed.

Lemma run_uninterrupted (p : Prog Result) (s s' : St W) (r : Result) (pool : list Thread) :
  goroutines s = [] ->
  run p s = Done r s' ->
  exists n,
    steps (replicate n 0%nat) {| threads := Caller p :: pool; shared := s |}
    = Some {| threads := Caller (Ret r) :: pool
                         ++ map (fun g => Spawned (goroutine_body g)) (goroutines s');
              shared := with_goroutines [] s' |}.
Proof.
  revert s s' pool. induction p as [a | X op k IH]; intros s s' pool Hgo; cbn.
  - intros [= <- <-]. exists 0%nat. cbn. rewrite Hgo, app_nil_r.
    destruct s; cbn in *; subst; reflexivity.
  - destruct (exec op s) as [x s1 | |] eqn:Hexec; try discriminate.
    intros Hrun.
    destruct (run_goroutines (k x) s1 s' r Hrun) as (later & Hlater & Hany).
    specialize (Hany []). cbn in Hany.
    destruct (IH x (with_goroutines [] s1) _
                (pool ++ map (fun g => Spawned (goroutine_body g)) (goroutines s1))
                eq_refl Hany) as (n & Hn).
    exists (S n). cbn. rewrite Hexec. cbn.
    rewrite Hn. cbn. rewrite Hlater, map_app, app_assoc. reflexivity.
Qed.

End Uninterrupted.

(** ** Concrete runs *)

Section Runs.

Import Script.

(** Discovery first, then the GET on the endpoint it named. *)
Example discovery_then_get :
  (trace <$> final (run (Provider_KeyFunc with_discovery caller) cold))
    = Some [EvKeyFunc caller;
            EvDiscovery caller http_Client_zero issuer
              (inr {| JWKSURI := "idp.example.com/jwks.json" |});
            EvDo http_Client_zero
              {| req_ctx := caller; Method := "GET";
                 req_url := "idp.example.com/jwks.json" |}
              (ok "{}")].
Proof. reflexivity. Qed.

(** A body that is not a key set document. *)
Example malformed_body :
  returned (run (Provider_KeyFunc with_override caller)
              (start (at_time 0 [ok "<html>"] 0) (caching false ∅)))
    = Some (None, Some (fmt_Errorf "could not decode jwks"
                          (errors_New "invalid character"))).
Proof. reflexivity. Qed.

(** The options of both kinds are applied; a string is not an option. *)
Example options_applied :
  NewCachingProvider issuer 0
    [opt_CachingProviderOption (WithSynchronousRefresh true);
     opt_ProviderOption (WithCustomJWKSURI (Some jwks_uri))]
  = inr {| Provider_ := with_override; CacheTTL := 60000000000;
           mu := RWMutex_zero; cache := ∅;
           sem := semaphore_NewWeighted 1; synchronousRefresh := true |}.
Proof. reflexivity. Qed.

Example string_is_no_option :
  NewCachingProvider issuer 0
    [opt_ProviderOption (WithCustomJWKSURI (Some jwks_uri)); opt_other "string"]
  = inl "invalid option type: string".
Proof. reflexivity. Qed.

(** C1 fails as stated for a non-success status: the transport hands
    back a 500 whose body is a JSON object, and [Provider.KeyFunc]
    returns a key set and a nil error. *)
Lemma C1_status_not_checked :
  returned (run (Provider_KeyFunc with_override caller) answers_500)
    = Some (Some fresh_keys, None) /\
  (trace <$> final (run (Provider_KeyFunc with_override caller) answers_500))
    = Some [EvKeyFunc caller;
            EvDo http_Client_zero
              {| req_ctx := caller; Method := "GET";
                 req_url := "idp.example.com/jwks.json" |}
              (inr {| StatusCode := 500; Body := "{}" |})].
Proof. split; reflexivity. Qed.


(** At 50ms the entry that expires at 100ms is served as it is. *)
Lemma C3_witness :
  run (CachingProvider_KeyFunc caller) (warm (50 * millisecond) false [])
    = Done (Some stale_keys, None) (warm (50 * millisecond) false []).
Proof.
  apply (C3_valid_entry_served caller (warm (50 * millisecond) false []) old_entry);
    [reflexivity | reflexivity | vm_compute; reflexivity].
Defined.

(** At 100ms sharp it still is. *)
Lemma C10_witness :
  run (CachingProvider_KeyFunc caller) (warm (100 * millisecond) true [ok "{}"])
    = Done (Some stale_keys, None) (warm (100 * millisecond) true [ok "{}"]).
Proof.
  apply (C10_expiry_is_strict caller (warm (100 * millisecond) true [ok "{}"]) old_entry);
    reflexivity.
Defined.


(** At 150ms, synchronous mode: the caller gets the fetched keys. *)
Lemma C5_witness :
  exists s',
    run (CachingProvider_KeyFunc caller) (warm (150 * millisecond) true [ok "{}"])
      = Done (Some fresh_keys, None) s' /\
    fetches (trace s') = 1%nat.
Proof.
  destruct (C5_synchronous_refresh caller
              (warm (150 * millisecond) true [ok "{}"]) old_entry)
    as (r & s1 & s' & evs & Hrefresh & Hrun & _ & Hn & _);
    [reflexivity | reflexivity | vm_compute; reflexivity | reflexivity
    | reflexivity | vm_compute; discriminate |].
  exists s'. split; [|exact Hn].
  vm_compute in Hrefresh. injection Hrefresh as <- _. exact Hrun.
Defined.

(** [refreshKey] on the cold cache installs the entry. *)
Lemma C6_witness :
  exists s',
    run (refreshKey caller "idp.example.com") cold = Done (Some fresh_keys, None) s' /\
    cache (self s') =
      <[ "idp.example.com" :=
           {| jwks := fresh_keys; expiresAt := 140 * millisecond |} ]> ∅.
Proof.
  destruct (C6_refreshKey caller "idp.example.com" cold eq_refl)
    as (r & s1 & s' & Hfetch & Hrun & Hcache).
  vm_compute in Hfetch. injection Hfetch as <- <-.
  exists s'. split; [exact Hrun | exact Hcache].
Defined.

(** C7 fails as stated for the miss path.  Two calls hold the read lock
    together and both find no entry; neither tries the gate, whose
    permit stays free; each makes its own fetch, so the endpoint is
    called twice. *)
Lemma C7_misses_not_coalesced :
  ((fun c => readers (mu (self (shared c)))) <$> steps both_miss two_cold_calls)
    = Some 2%nat /\
  ((fun c => (threads c, fetches (trace (shared c)), sem (self (shared c))))
     <$> steps (both_miss ++ refresh_in_turn) two_cold_calls)
    = Some ([Caller (Ret (Some fresh_keys, None));
             Caller (Ret (Some fresh_keys, None))],
            2%nat, semaphore_NewWeighted 1).
Proof. split; vm_compute; reflexivity. Qed.

(** While the goroutine of the first call has its request out, holding
    the write lock and the permit, the second call has come back with
    the stale keys; one fetch has been made. *)
Lemma C7_witness :
  exists c g,
    steps refresh_in_background two_warm_calls = Some c /\
    threads c !! 1%nat = Some (Caller (Ret (Some stale_keys, None))) /\
    threads c !! 2%nat = Some g /\
    fetching g = true /\
    fetches (trace (shared c)) = 1%nat /\
    ~ (holds_permit (Caller (Ret (Some stale_keys, None))) /\ holds_permit g).
Proof.
  destruct (steps refresh_in_background two_warm_calls) as [c|] eqn:Hsteps;
    [|vm_compute in Hsteps; discriminate Hsteps].
  destruct (threads c !! 1%nat) as [t|] eqn:H1;
    [|vm_compute in Hsteps; injection Hsteps as <-; discriminate H1].
  destruct (threads c !! 2%nat) as [g|] eqn:H2;
    [|vm_compute in Hsteps; injection Hsteps as <-; discriminate H2].
  pose proof (C7_one_refresh_at_a_time [caller; next_caller]
                (warm (150 * millisecond) false [ok "{}"])
                refresh_in_background c 1 2 t g
                eq_refl eq_refl eq_refl Hsteps ltac:(discriminate) H1 H2)
    as (_ & _ & Hpermit).
  vm_compute in Hsteps. injection Hsteps as <-.
  injection H1 as <-. injection H2 as <-.
  do 2 eexists. split; [reflexivity|].
  repeat split; try reflexivity. exact Hpermit.
Defined.

End Runs.

(** * Further properties of the caching layer *)

Section Paths.

Context {W : Type} `{World W} `{Libs}.

(** The asynchronous branch: the permit is taken, the goroutine is
    started, the cached key set is returned. *)
Lemma KeyFunc_async_run (ctx : Context) (s : St W) (cached : cachedJWKS) :
  mu (self s) = RWMutex_zero ->
  cache (self s) !! issuer_of (self s) = Some cached ->
  expiresAt cached < time_Now (world s) ->
  synchronousRefresh (self s) = false ->
  fst (Weighted_TryAcquire (sem (self s)) 1) = true ->
  run (CachingProvider_KeyFunc ctx) s
  = Done (Some (jwks cached), None)
      (with_goroutines (goroutines s ++ [go_refresh (issuer_of (self s))])
         (gate_tried s)).
Proof.
  intros Hfree Hc Hexp Hsync Hgate.
  unfold CachingProvider_KeyFunc, issuer_of in *.
  destruct s as [w c gs tr], c as [pr ttl [wr rd] ca se sy].
  cbn in Hfree, Hc, Hexp, Hsync, Hgate |- *.
  injection Hfree as -> ->. subst sy. cbn. rewrite Hc. cbn.
  replace (time_Now w >? expiresAt cached) with true
    by (symmetry; apply Z.gtb_lt; exact Hexp).
  cbn. norm_state. unfold Weighted_TryAcquire in *.
  destruct (1 <=? sem_size se - sem_cur se); [clear Hgate | discriminate Hgate].
  cbn. norm_state. reflexivity.
Qed.

(** The synchronous branch: [refreshKey] with the permit held, then the
    permit is put back. *)
Lemma KeyFunc_sync_run (ctx : Context) (s : St W) (cached : cachedJWKS) :
  mu (self s) = RWMutex_zero ->
  cache (self s) !! issuer_of (self s) = Some cached ->
  expiresAt cached < time_Now (world s) ->
  synchronousRefresh (self s) = true ->
  fst (Weighted_TryAcquire (sem (self s)) 1) = true ->
  0 <= sem_cur (sem (self s)) ->
  exists r s1,
    run (refreshKey ctx (issuer_of (self s))) (gate_tried s) = Done r s1 /\
    run (CachingProvider_KeyFunc ctx) s
    = Done r (with_self (set_sem (sem (self s)) (self s1)) s1).
Proof.
  intros Hfree Hc Hexp Hsync Hgate Hcur.
  destruct (refreshKey_run ctx (issuer_of (self s)) (gate_tried s) Hfree)
    as (r & _ & s1 & _ & _ & Hrun & _ & _ & _ & _ & Hr).
  exists r, s1. split; [exact Hrun|].
  unfold CachingProvider_KeyFunc, issuer_of, gate_tried in *.
  destruct s as [w c gs tr], c as [pr ttl [wr rd] ca se sy].
  cbn in Hfree, Hc, Hexp, Hsync, Hgate, Hcur, Hrun, Hr |- *.
  injection Hfree as -> ->. subst sy. cbn. rewrite Hc. cbn.
  replace (time_Now w >? expiresAt cached) with true
    by (symmetry; apply Z.gtb_lt; exact Hexp).
  cbn. unfold Weighted_TryAcquire in *.
  destruct (1 <=? sem_size se - sem_cur se); [clear Hgate | discriminate Hgate].
  cbn. norm_state. rewrite run_bind, Hrun.
  destruct s1 as [w1 c1 gs1 tr1]. cbn in Hr |- *.
  unfold Weighted_Release.
  assert (Hsem : sem c1 = {| sem_size := sem_size se; sem_cur := sem_cur se + 1 |})
    by (destruct Hr as [(keys & _ & ->) | (err & _ & ->)]; reflexivity).
  rewrite Hsem. cbn.
  replace (sem_cur se + 1 - 1 <? 0) with false by (symmetry; apply Z.ltb_ge; lia).
  cbn. norm_state. do 3 f_equal. destruct se; cbn. f_equal. lia.
Qed.

(** The branch taken when the gate is busy. *)
Lemma KeyFunc_gate_busy (ctx : Context) (s : St W) (cached : cachedJWKS) :
  writer (mu (self s)) = false ->
  cache (self s) !! issuer_of (self s) = Some cached ->
  expiresAt cached < time_Now (world s) ->
  fst (Weighted_TryAcquire (sem (self s)) 1) = false ->
  run (CachingProvider_KeyFunc ctx) s = Done (Some (jwks cached), None) s.
Proof.
  intros Hw Hc Hexp Hgate.
  unfold CachingProvider_KeyFunc, issuer_of in *.
  destruct s as [w c gs tr], c as [pr ttl [wr rd] ca se sy].
  cbn in Hw, Hc, Hexp, Hgate |- *. subst wr. cbn. rewrite Hc. cbn.
  replace (time_Now w >? expiresAt cached) with true
    by (symmetry; apply Z.gtb_lt; exact Hexp).
  cbn. unfold Weighted_TryAcquire in *.
  destruct (1 <=? sem_size se - sem_cur se); [discriminate Hgate|].
  cbn. norm_state. destruct se. reflexivity.
Qed.


(** X2. In synchronous mode a refresh that fails evicts nothing: the
    caller gets the error, and the provider is left exactly as it was
    found, stale entry included, with the permit free again. *)
Theorem failed_sync_refresh_keeps_entry
    (ctx : Context) (s : St W) (cached : cachedJWKS) :
  mu (self s) = RWMutex_zero ->
  cache (self s) !! issuer_of (self s) = Some cached ->
  expiresAt cached < time_Now (world s) ->
  synchronousRefresh (self s) = true ->
  fst (Weighted_TryAcquire (sem (self s)) 1) = true ->
  0 <= sem_cur (sem (self s)) ->
  exists r s',
    run (CachingProvider_KeyFunc ctx) s = Done r s' /\
    forall err, snd r = Some err ->
      r = (None, Some err) /\ self s' = self s /\ goroutines s' = goroutines s.
Proof.
  intros Hfree Hc Hexp Hsync Hgate Hcur.
  destruct (KeyFunc_sync_run ctx s cached Hfree Hc Hexp Hsync Hgate Hcur)
    as (r & s1 & Hrefresh & Hrun).
  destruct (refreshKey_run ctx (issuer_of (self s)) (gate_tried s) Hfree)
    as (r0 & _ & s1' & _ & _ & Hrun0 & _ & _ & Hgo & _ & Hr).
  rewrite Hrefresh in Hrun0. injection Hrun0 as <- <-.
  eexists r, _. split; [exact Hrun|].
  intros err Herr.
  destruct Hr as [(keys & -> & _) | (err' & -> & Hself)]; [discriminate Herr|].
  injection Herr as ->. split; [reflexivity|]. cbn. rewrite Hself.
  split; [|exact Hgo].
  destruct s as [w c gs tr], c as [pr ttl m ca se sy]. reflexivity.
Qed.



(** X5. A negative TTL makes the cache useless: the entry a miss
    installs has expired when it is stored, so the call that follows
    does not serve it as valid.  With the gate free, it fetches again
    in synchronous mode, and starts a refresh goroutine in
    asynchronous mode. *)
Theorem negative_ttl_expires_on_arrival (ctx ctx' : Context) (s : St W) :
  mu (self s) = RWMutex_zero ->
  cache (self s) !! issuer_of (self s) = None ->
  CacheTTL (self s) < 0 ->
  fst (Weighted_TryAcquire (sem (self s)) 1) = true ->
  0 <= sem_cur (sem (self s)) ->
  exists r s',
    run (CachingProvider_KeyFunc ctx) s = Done r s' /\
    (snd r = None ->
     exists r' s'',
       run (CachingProvider_KeyFunc ctx') s' = Done r' s'' /\
       if synchronousRefresh (self s)
       then fetches (trace s'') = S (fetches (trace s'))
       else goroutines s'' = goroutines s' ++ [go_refresh (issuer_of (self s))]).
Proof.
  intros Hfree Hmiss Httl Hgate Hcur.
  rewrite KeyFunc_miss by (try rewrite Hfree; easy).
  destruct (refreshKey_run ctx (issuer_of (self s)) s Hfree)
    as (r & _ & s' & _ & _ & Hrun & _ & _ & _ & _ & Hr).
  exists r, s'. split; [exact Hrun|].
  intros Hok.
  destruct Hr as [(keys & -> & Hself) | (err & -> & _)]; [|discriminate Hok].
  set (entry := {| jwks := keys; expiresAt := time_Now (world s') + CacheTTL (self s) |}) in *.
  assert (Hfree' : mu (self s') = RWMutex_zero) by (rewrite Hself; exact Hfree).
  assert (Hissuer : issuer_of (self s') = issuer_of (self s)) by (rewrite Hself; reflexivity).
  assert (Hc' : cache (self s') !! issuer_of (self s') = Some entry)
    by (rewrite Hissuer, Hself; cbn; apply lookup_insert_eq).
  assert (Hexp : expiresAt entry < time_Now (world s')) by (cbn; lia).
  assert (Hgate' : fst (Weighted_TryAcquire (sem (self s')) 1) = true)
    by (rewrite Hself; exact Hgate).
  assert (Hcur' : 0 <= sem_cur (sem (self s'))) by (rewrite Hself; exact Hcur).
  assert (Hsync : synchronousRefresh (self s') = synchronousRefresh (self s))
    by (rewrite Hself; reflexivity).
  destruct (synchronousRefresh (self s)) eqn:Hmode.
  - destruct (KeyFunc_sync_run ctx' s' entry Hfree' Hc' Hexp Hsync Hgate' Hcur')
      as (r' & s1 & Hrefresh & Hrun').
    destruct (refreshKey_run ctx' (issuer_of (self s')) (gate_tried s') Hfree')
      as (r0 & _ & s1' & _ & _ & Hrun0 & _ & _ & _ & Hn & _).
    rewrite Hrefresh in Hrun0. injection Hrun0 as <- <-.
    eexists r', _. split; [exact Hrun'|]. exact Hn.
  - eexists _, _. split.
    + apply (KeyFunc_async_run ctx' s' entry Hfree' Hc' Hexp Hsync Hgate').
    + cbn. rewrite Hissuer. reflexivity.
Qed.

(** What a call leaves behind, path by path. *)
Lemma KeyFunc_outcome (ctx : Context) (s : St W) :
  mu (self s) = RWMutex_zero ->
  0 <= sem_cur (sem (self s)) ->
  exists r s',
    run (CachingProvider_KeyFunc ctx) s = Done r s' /\
    ((exists keys, r = (Some keys, None)) \/ (exists err, r = (None, Some err))) /\
    ((* served from the cache, or a refresh that failed *)
     (self s' = self s /\ goroutines s' = goroutines s)
     \/ (* a refresh that succeeded *)
     (exists entry,
        self s' = set_cache (<[issuer_of (self s) := entry]> (cache (self s))) (self s) /\
        goroutines s' = goroutines s)
     \/ (* stale, with a refresh started *)
     (self s' = set_sem {| sem_size := sem_size (sem (self s));
                           sem_cur := sem_cur (sem (self s)) + 1 |} (self s) /\
      goroutines s' = goroutines s ++ [go_refresh (issuer_of (self s))])).
Proof.
  intros Hfree Hcur.
  assert (Hw : writer (mu (self s)) = false) by (rewrite Hfree; reflexivity).
  destruct (cache (self s) !! issuer_of (self s)) as [cached|] eqn:Hc.
  - destruct (Z_lt_le_dec (expiresAt cached) (time_Now (world s))) as [Hexp | Hvalid].
    + destruct (fst (Weighted_TryAcquire (sem (self s)) 1)) eqn:Hgate.
      * destruct (synchronousRefresh (self s)) eqn:Hsync.
        -- destruct (KeyFunc_sync_run ctx s cached Hfree Hc Hexp Hsync Hgate Hcur)
             as (r & s1 & Hrefresh & Hrun).
           destruct (refreshKey_run ctx (issuer_of (self s)) (gate_tried s) Hfree)
             as (r0 & _ & s1' & _ & _ & Hrun0 & _ & _ & Hgo & _ & Hr).
           rewrite Hrefresh in Hrun0. injection Hrun0 as <- <-.
           eexists r, _. split; [exact Hrun|].
           destruct s as [w c gs tr], c as [pr ttl m ca se sy].
           destruct Hr as [(keys & -> & Hself) | (err & -> & Hself)]; cbn in *;
             rewrite Hself; cbn.
           ++ split; [eauto|]. right. left. eexists. split; [reflexivity | exact Hgo].
           ++ split; [eauto|]. left. split; [reflexivity | exact Hgo].
        -- eexists _, _. split; [apply (KeyFunc_async_run ctx s cached); assumption|].
           split; [eauto|]. right. right. cbn. unfold Weighted_TryAcquire in *.
           destruct (1 <=? sem_size (sem (self s)) - sem_cur (sem (self s)));
             [|discriminate Hgate]. split; reflexivity.
      * eexists _, _. split; [apply (KeyFunc_gate_busy ctx s cached); assumption|].
        split; [eauto|]. left. split; reflexivity.
    + eexists _, _. split; [apply (KeyFunc_not_expired ctx s cached); assumption|].
      split; [eauto|]. left. split; reflexivity.
  - rewrite KeyFunc_miss by assumption.
    destruct (refreshKey_run ctx (issuer_of (self s)) s Hfree)
      as (r & _ & s' & _ & _ & Hrun & _ & _ & Hgo & _ & Hr).
    exists r, s'. split; [exact Hrun|].
    destruct Hr as [(keys & -> & Hself) | (err & -> & Hself)].
    + split; [eauto|]. right. left. eexists. split; [exact Hself | exact Hgo].
    + split; [eauto|]. left. split; [exact Hself | exact Hgo].
Qed.


(** X7. A call touches one cache entry only, the one under the
    provider's own issuer host name: every other key reads as before.
    It never changes the provider's configuration (the embedded
    provider, the TTL, the refresh mode). *)
Theorem KeyFunc_footprint (ctx : Context) (s : St W) :
  mu (self s) = RWMutex_zero ->
  0 <= sem_cur (sem (self s)) ->
  exists r s',
    run (CachingProvider_KeyFunc ctx) s = Done r s' /\
    Provider_ (self s') = Provider_ (self s) /\
    CacheTTL (self s') = CacheTTL (self s) /\
    synchronousRefresh (self s') = synchronousRefresh (self s) /\
    forall key, key <> issuer_of (self s) ->
      cache (self s') !! key = cache (self s) !! key.
Proof.
  intros Hfree Hcur.
  destruct (KeyFunc_outcome ctx s Hfree Hcur) as (r & s' & Hrun & _ & Hself).
  exists r, s'. split; [exact Hrun|].
  destruct Hself as [[-> _] | [(entry & -> & _) | [-> _]]]; cbn;
    repeat split; try reflexivity.
  intros key Hkey. apply lookup_insert_ne. congruence.
Qed.

End Paths.

(** * Further properties of the key fetcher *)

Section FetcherEdges.

Context {W : Type} `{World W} `{Libs}.

(** X8. When the endpoint that discovery names does not parse as a URL,
    [Provider.KeyFunc] returns the parse error wrapped as "could not
    parse JWKS URI from well known endpoints", with no key set, and
    sends no request for the key set: discovery is its only call. *)
Theorem unparsable_endpoint (p : Provider) (ctx : Context) (s : St W)
    (wk : oidc_WellKnownEndpoints) (w1 : W) (err : error) :
  CustomJWKSURI p = None ->
  oidc_GetWellKnownEndpointsFromIssuerURL ctx (Client p) (IssuerURL p) (world s)
    = (inr wk, w1) ->
  url_Parse (JWKSURI wk) = inl err ->
  exists s',
    run (Provider_KeyFunc p ctx) s
    = Done (None, Some (fmt_Errorf
                          "could not parse JWKS URI from well known endpoints" err)) s' /\
    trace s' = trace s ++ [EvKeyFunc ctx;
                           EvDiscovery ctx (Client p) (IssuerURL p) (inr wk)] /\
    world s' = w1.
Proof.
  intros Hnone Hdisc Hparse. unfold Provider_KeyFunc. cbn.
  rewrite Hnone. cbn. rewrite Hdisc. cbn. rewrite Hparse. cbn.
  eexists. split; [reflexivity|]. cbn. rewrite <- app_assoc. split; reflexivity.
Qed.

(** X9. When no request can be built for the configured endpoint,
    [Provider.KeyFunc] returns the error wrapped as "could not build
    request to get JWKS", with no key set, and makes no outbound call
    at all: the world is as it was found. *)
Theorem unbuildable_request (p : Provider) (ctx : Context) (s : St W)
    (jwksURI : url_URL) (err : error) :
  CustomJWKSURI p = Some jwksURI ->
  http_NewRequestWithContext ctx http_MethodGet (URL_String jwksURI) = inl err ->
  exists s',
    run (Provider_KeyFunc p ctx) s
    = Done (None, Some (fmt_Errorf "could not build request to get JWKS" err)) s' /\
    trace s' = trace s ++ [EvKeyFunc ctx] /\
    world s' = world s.
Proof.
  intros Hsome Hbuild. unfold Provider_KeyFunc. cbn.
  rewrite Hsome. cbn. rewrite Hbuild. cbn.
  eexists. split; [reflexivity|]. split; reflexivity.
Qed.

(** X10. [Provider.KeyFunc] keeps no state and never retries: it leaves
    the receiver as found, and makes at most two outbound calls, at
    most one when an override is configured. *)
Theorem fetch_calls_bounded (p : Provider) (ctx : Context) (s : St W) :
  exists r s' evs,
    run (Provider_KeyFunc p ctx) s = Done r s' /\
    trace s' = trace s ++ EvKeyFunc ctx :: evs /\
    (length evs <= 2)%nat /\
    (forall jwksURI, CustomJWKSURI p = Some jwksURI -> (length evs <= 1)%nat) /\
    self s' = self s /\ goroutines s' = goroutines s.
Proof.
  unfold Provider_KeyFunc.
  fetch_cases; do 3 eexists; (split; [reflexivity|]); cbn;
    rewrite <- ?app_assoc; cbn; (split; [reflexivity|]); cbn;
    repeat split; try lia; intros; try discriminate; cbn; lia.
Qed.

End FetcherEdges.

(** * Further properties of the constructors *)

Section ConstructionMore.

Lemma sort_opts_typed_lists (opts : list opt_value) po co :
  (forall type_name, ~ In (opt_other type_name) opts) ->
  sort_opts opts po co = inr (po ++ provider_options opts, co ++ caching_options opts).
Proof.
  revert po co. induction opts as [|o opts IH]; intros po co Hty; cbn.
  - rewrite !app_nil_r. reflexivity.
  - assert (Hty' : forall t, ~ In (opt_other t) opts)
      by (intros t Ht; apply (Hty t); right; exact Ht).
    destruct o as [o | o | t]; cbn.
    + rewrite IH by exact Hty'. rewrite <- app_assoc. reflexivity.
    + rewrite IH by exact Hty'. rewrite <- app_assoc. reflexivity.
    + exfalso. apply (Hty t). left. reflexivity.
Qed.

(** X11. Wherever the options stand in the list, [NewCachingProvider]
    applies every provider option, in the order given, to a provider
    with the issuer URL and the zero HTTP client, and only then the
    caching options, in the order given, to a struct with that
    provider, an empty cache, a free mutex and a free one-permit
    semaphore.  A zero TTL becomes one minute; any other TTL, negative
    ones included, is kept. *)
Theorem options_by_kind (issuerURL : url_URL) (cacheTTL : Z) (opts : list opt_value) :
  (forall type_name, ~ In (opt_other type_name) opts) ->
  NewCachingProvider issuerURL cacheTTL opts
  = inr (fold_left (fun cp opt => opt cp) (caching_options opts)
           (new_caching_provider
              (fold_left (fun p opt => opt p) (provider_options opts)
                 {| IssuerURL := issuerURL; CustomJWKSURI := None;
                    Client := http_Client_zero |})
              cacheTTL)).
Proof.
  intros Hty. unfold NewCachingProvider.
  rewrite (sort_opts_typed_lists opts [] [] Hty). reflexivity.
Qed.

(** X12. The panic of [NewCachingProvider] names the type of the first
    element that is not an option, whatever follows it. *)
Theorem panic_names_first_invalid (issuerURL : url_URL) (cacheTTL : Z)
    (typed rest : list opt_value) (type_name : string) :
  (forall t, ~ In (opt_other t) typed) ->
  NewCachingProvider issuerURL cacheTTL (typed ++ opt_other type_name :: rest)
  = inl ("invalid option type: " +:+ type_name).
Proof.
  intros Hty. unfold NewCachingProvider.
  assert (Hsort : forall po co,
             sort_opts (typed ++ opt_other type_name :: rest) po co
             = inl ("invalid option type: " +:+ type_name)).
  { induction typed as [|o typed IH]; intros po co; cbn; [reflexivity|].
    assert (Hty' : forall t, ~ In (opt_other t) typed)
      by (intros t Ht; apply (Hty t); right; exact Ht).
    destruct o as [o | o | t]; [apply IH, Hty' | apply IH, Hty' |].
    exfalso. apply (Hty t). left. reflexivity. }
  rewrite Hsort. reflexivity.
Qed.

End ConstructionMore.

(** * Further properties of interleaved calls *)

Section Pairing.

Context {W : Type} `{World W} `{Libs}.





















End Pairing.

(** * The first call on a new provider *)

Section FirstCall.

Context {W : Type} `{World W} `{Libs}.

Lemma package_options_typed (opts : list opt_value) :
  Forall package_option opts -> forall type_name, ~ In (opt_other type_name) opts.
Proof.
  intros Hall t Ht. rewrite Forall_forall in Hall.
  apply list_elem_of_In in Ht. specialize (Hall _ Ht). inversion Hall.
Qed.

Lemma package_options_keep_issuer (opts : list opt_value) (p : Provider) :
  Forall package_option opts ->
  IssuerURL (fold_left (fun p opt => opt p) (provider_options opts) p) = IssuerURL p.
Proof.
  intros Hall. revert p. induction Hall as [|o opts Ho _ IH]; intros p; [reflexivity|].
  destruct Ho; cbn; rewrite ?IH; reflexivity.
Qed.

Lemma package_options_keep_state (opts : list opt_value) (cp : CachingProvider) :
  Forall package_option opts ->
  let cp' := fold_left (fun cp opt => opt cp) (caching_options opts) cp in
  Provider_ cp' = Provider_ cp /\ CacheTTL cp' = CacheTTL cp /\
  mu cp' = mu cp /\ cache cp' = cache cp /\ sem cp' = sem cp.
Proof.
  intros Hall. revert cp. induction Hall as [|o opts Ho _ IH]; intros cp; [cbn; auto|].
  destruct Ho; cbn; try apply IH.
  specialize (IH (WithSynchronousRefresh blocking cp)). cbn zeta in IH.
  fold (caching_options opts). destruct IH as (-> & -> & -> & -> & ->). cbn. auto.
Qed.

(** X15. Construction, then the first call.  A provider built with
    options of the package makes exactly one fetch on its first call;
    when the fetch succeeds the cache holds one entry and no more,
    under the host name of the issuer URL given to the constructor,
    expiring a TTL after the fetch came back, where a TTL of zero
    counts as one minute. *)
Theorem first_call_on_new_provider
    (issuerURL : url_URL) (cacheTTL : Z) (opts : list opt_value) :
  Forall package_option opts ->
  exists cp,
    NewCachingProvider issuerURL cacheTTL opts = inr cp /\
    forall (ctx : Context) (w : W),
    exists r s',
      run (CachingProvider_KeyFunc ctx)
          {| world := w; self := cp; goroutines := []; trace := [] |} = Done r s' /\
      fetches (trace s') = 1%nat /\
      forall keys, r = (Some keys, None) ->
        cache (self s') =
          {[ URL_Hostname issuerURL :=
               {| jwks := keys;
                  expiresAt := time_Now (world s')
                               + (if cacheTTL =? 0 then 1 * time_Minute else cacheTTL) |} ]}.
Proof.
  intros Hall. unfold NewCachingProvider.
  rewrite (sort_opts_typed_lists opts [] [] (package_options_typed opts Hall)).
  cbv beta iota zeta. rewrite !app_nil_l.
  eexists. split; [reflexivity|].
  set (cp0 := {| Provider_ := NewProvider issuerURL (provider_options opts);
                 CacheTTL := _; mu := _; cache := _; sem := _;
                 synchronousRefresh := _ |}).
  destruct (package_options_keep_state opts cp0 Hall) as (Hp & Httl & Hmu & Hcache & Hsem).
  cbn in Hp, Httl, Hmu, Hcache, Hsem.
  set (cp := fold_left (fun cp opt => opt cp) (caching_options opts) cp0) in *.
  assert (Hissuer : issuer_of cp = URL_Hostname issuerURL).
  { unfold issuer_of. rewrite Hp. subst cp0. cbn. unfold NewProvider.
    rewrite (package_options_keep_issuer opts _ Hall). reflexivity. }
  intros ctx w.
  set (s := {| world := w; self := cp; goroutines := []; trace := [] |}).
  assert (Hfree : mu (self s) = RWMutex_zero) by exact Hmu.
  assert (Hmiss : cache (self s) !! issuer_of (self s) = None)
    by (cbn; rewrite Hcache; apply lookup_empty).
  destruct (refreshKey_run ctx (issuer_of (self s)) s Hfree)
    as (r & _ & s' & _ & _ & Hrun & _ & _ & _ & Hn & Hr).
  exists r, s'.
  split; [rewrite KeyFunc_miss by (try rewrite Hfree; easy); exact Hrun|].
  split; [exact Hn|].
  intros keys ->.
  destruct Hr as [(keys' & [= <-] & ->) | (err & [=] & _)].
  cbn. rewrite Hcache, Httl, Hissuer. apply insert_empty.
Qed.

End FirstCall.

(** * More concrete runs *)

Section MoreRuns.

Import Script Cases.


(** The issuer is down at 150ms, synchronous mode: the error comes back
    and the provider still holds the entry of time 0. *)
Lemma failed_sync_refresh_witness :
  exists s',
    run (CachingProvider_KeyFunc caller) (warm (150 * millisecond) true [unreachable])
      = Done (None, Some (errors_New "dial tcp: connection refused")) s' /\
    self s' = caching true holding_old.
Proof.
  destruct (failed_sync_refresh_keeps_entry caller
              (warm (150 * millisecond) true [unreachable]) old_entry)
    as (r & s' & Hrun & Hfail);
    [reflexivity | reflexivity | vm_compute; reflexivity | reflexivity
    | reflexivity | vm_compute; discriminate |].
  assert (Hr : r = (None, Some (errors_New "dial tcp: connection refused")))
    by (vm_compute in Hrun; injection Hrun as <- _; reflexivity).
  subst r. exists s'. split; [exact Hrun|].
  destruct (Hfail _ eq_refl) as (_ & Hself & _). exact Hself.
Defined.



(** With a TTL of minus one millisecond the second call fetches again. *)
Lemma negative_ttl_witness :
  exists s' r' s'',
    run (CachingProvider_KeyFunc caller) (impatient true) = Done (Some fresh_keys, None) s' /\
    run (CachingProvider_KeyFunc next_caller) s' = Done r' s'' /\
    fetches (trace s'') = 2%nat.
Proof.
  destruct (negative_ttl_expires_on_arrival caller next_caller (impatient true))
    as (r & s' & Hrun & Hnext);
    [reflexivity | reflexivity | vm_compute; reflexivity | reflexivity
    | vm_compute; discriminate |].
  assert (Hr : r = (Some fresh_keys, None))
    by (vm_compute in Hrun; injection Hrun as <- _; reflexivity).
  subst r. destruct (Hnext eq_refl) as (r' & s'' & Hrun' & Hn).
  exists s', r', s''. split; [exact Hrun|]. split; [exact Hrun'|].
  cbn in Hn. rewrite Hn.
  vm_compute in Hrun. injection Hrun as <-. reflexivity.
Defined.


(** The first call writes under "idp.example.com" and nowhere else. *)
Lemma KeyFunc_footprint_witness :
  exists r s',
    run (CachingProvider_KeyFunc caller) cold = Done r s' /\
    CacheTTL (self s') = 100 * millisecond /\
    cache (self s') !! "login.example.org" = None.
Proof.
  destruct (KeyFunc_footprint caller cold)
    as (r & s' & Hrun & _ & Httl & _ & Hother); [reflexivity | vm_compute; discriminate |].
  exists r, s'. split; [exact Hrun|]. split; [exact Httl|].
  rewrite Hother; [reflexivity | discriminate].
Defined.

(** Discovery names the empty string, which does not parse. *)
Lemma unparsable_endpoint_witness :
  returned (run (Provider_KeyFunc with_discovery caller) names_nothing)
    = Some (None, Some (fmt_Errorf "could not parse JWKS URI from well known endpoints"
                          (errors_New "empty url"))).
Proof.
  destruct (unparsable_endpoint with_discovery caller names_nothing
              {| JWKSURI := "" |} (snd (discover (world names_nothing)))
              (errors_New "empty url"))
    as (s' & -> & _); reflexivity.
Defined.

(** The override has a space in its host. *)
Lemma unbuildable_request_witness :
  returned (run (@Provider_KeyFunc Strict.strict_libs Strict.mistyped caller) cold)
    = Some (None, Some (fmt_Errorf "could not build request to get JWKS"
                          (errors_New "invalid character in host name"))).
Proof.
  destruct (@unbuildable_request net script_world Strict.strict_libs
              Strict.mistyped caller cold
              {| Scheme := "https"; Host := "idp.example .com"; Path := "" |}
              (errors_New "invalid character in host name"))
    as (s' & -> & _); reflexivity.
Defined.

(** Options of both kinds, out of order. *)
Lemma options_by_kind_witness :
  NewCachingProvider issuer 0
    [opt_CachingProviderOption (WithSynchronousRefresh true);
     opt_ProviderOption (WithCustomJWKSURI (Some jwks_uri))]
  = inr {| Provider_ := with_override; CacheTTL := 1 * time_Minute;
           mu := RWMutex_zero; cache := ∅;
           sem := semaphore_NewWeighted 1; synchronousRefresh := true |}.
Proof.
  rewrite (options_by_kind issuer 0
             [opt_CachingProviderOption (WithSynchronousRefresh true);
              opt_ProviderOption (WithCustomJWKSURI (Some jwks_uri))]).
  - reflexivity.
  - intros t [Ht | [Ht | []]]; discriminate Ht.
Defined.

(** An integer after one good option, a string after that. *)
Lemma panic_names_first_invalid_witness :
  NewCachingProvider issuer 0
    [opt_ProviderOption (WithCustomClient http_Client_zero);
     opt_other "int"; opt_other "string"]
  = inl "invalid option type: int".
Proof.
  apply (panic_names_first_invalid issuer 0
           [opt_ProviderOption (WithCustomClient http_Client_zero)]
           [opt_other "string"] "int").
  intros t [Ht | []]. discriminate Ht.
Defined.



(** A provider built with [WithSynchronousRefresh(true)] and a TTL of
    zero: one fetch, one entry, good for a minute. *)
Lemma first_call_witness :
  exists cp r s',
    NewCachingProvider issuer 0 [opt_CachingProviderOption (WithSynchronousRefresh true)]
      = inr cp /\
    run (CachingProvider_KeyFunc caller)
        {| world := at_time 0 [ok "{}"] (40 * millisecond); self := cp;
           goroutines := []; trace := [] |} = Done r s' /\
    fetches (trace s') = 1%nat.
Proof.
  destruct (first_call_on_new_provider (W := net) issuer 0
              [opt_CachingProviderOption (WithSynchronousRefresh true)])
    as (cp & Hnew & Hcall).
  - repeat constructor.
  - destruct (Hcall caller (at_time 0 [ok "{}"] (40 * millisecond)))
      as (r & s' & Hrun & Hn & _).
    exists cp, r, s'. auto.
Defined.

End MoreRuns.

(** * Stale while revalidating *)

Section Revalidation.

Context {W : Type} `{World W} `{Libs}.


End Revalidation.

Section RevalidationRun.

Import Script.


End RevalidationRun.
